(** * ebay-oauth: the token lifecycle manager ([ebay_oauth/auth.py])

    A shallow embedding of [EbayOAuthClient] and of the environment table of
    [ebay_oauth/config.py], followed by the properties of the manager.

    Conventions of the embedding.
    - A Python [str] is a [string] holding its UTF-8 bytes, so [str.encode()]
      and [bytes.decode()] are the conversions between [string] and
      [list byte].
    - A Python value that comes out of [response.json()] is a [pyval].
    - Wall-clock instants ([time.time()], [_token_expiry]) are exact
      rationals: the rounding of float arithmetic is outside the model. The
      [OverflowError] of adding an int beyond the float range to a float is
      inside it.
    - Methods are computations in the monad [M]: they thread the client
      object and the outside world, and end in a value or in a raised
      exception; a raise keeps the mutations done before it, as in Python. *)

From Stdlib Require Import QArith Lqa.
From stdpp Require Import gmap strings list fin_maps.
From Stdlib Require Import Strings.Byte Strings.Ascii.

Set Warnings "-register-all".
Local Open Scope string_scope.
Local Open Scope Z_scope.
Local Open Scope list_scope.

(** ** Python values *)

Module Py.

(** A float read from JSON: a finite number, an infinity or a NaN
    ([json.loads] accepts [Infinity], [-Infinity] and [NaN]). *)
Inductive pyfloat : Type :=
| Finite (q : Q)
| Inf (negative : bool)
| NaN.

(** What [json.loads] can return; [PNone] is also Python's [None]. *)
Inductive pyval : Type :=
| PNone
| PBool (b : bool)
| PInt (z : Z)
| PFloat (f : pyfloat)
| PStr (s : string)
| PList (l : list pyval)
| PDict (d : gmap string pyval).

(** Exceptions the manager can meet, with what they carry. *)
Record Response : Type := {
  status_code : Z;
  json_body : option pyval  (* [None]: the body is not JSON *)
}.

Inductive exn : Type :=
| ValueError (msg : string)
| KeyError (key : string)
| TypeError
| OverflowError
| AttributeError
| JSONDecodeError
| RequestError                      (* httpx could not complete the request *)
| HTTPStatusError (r : Response)    (* [raise_for_status] *)
| RuntimeError (data : pyval).      (* "No access_token in response: {data}" *)

Inductive result (A : Type) : Type :=
| Ok (a : A)
| Raise (e : exn).
Arguments Ok {A} a.
Arguments Raise {A} e.

(** A container is true when it is not empty. *)
Definition nonempty {A} (l : list A) : bool :=
  match l with [] => false | _ => true end.

(** Truth value of an object, as [if x] and [not x] test it. *)
Definition truthy (v : pyval) : bool :=
  match v with
  | PNone => false
  | PBool b => b
  | PInt z => negb (z =? 0)
  | PFloat (Finite q) => negb (Qeq_bool q 0)
  | PFloat _ => true
  | PStr s => negb (String.eqb s "")
  | PList l => nonempty l
  | PDict d => nonempty (map_to_list d)
  end.

(** [int(x)] for the types other than [str]; [int_of_str] is the builtin's
    parser of integer literals. *)
Definition int (int_of_str : string -> option Z) (v : pyval) : result Z :=
  match v with
  | PInt z => Ok z
  | PBool b => Ok (if b then 1 else 0)
  | PFloat (Finite q) => Ok (Z.quot (Qnum q) (Z.pos (Qden q)))
  | PFloat (Inf _) => Raise OverflowError
  | PFloat NaN => Raise (ValueError "cannot convert float NaN to integer")
  | PStr s =>
      match int_of_str s with
      | Some z => Ok z
      | None => Raise (ValueError "invalid literal for int() with base 10")
      end
  | PNone | PList _ | PDict _ => Raise TypeError
  end.

End Py.
Export Py.

(** ** [base64.b64encode] and [base64.b64decode] *)

Module Base64.

Local Open Scope N_scope.

(** The standard alphabet (RFC 4648, table 1). *)
Definition alphabet : list byte :=
  String.list_byte_of_string
    "ABCDEFGHIJKLMNOPQRSTUVWXYZabcdefghijklmnopqrstuvwxyz0123456789+/".

Definition pad : byte := "="%byte.

(** The character of a 6-bit value. *)
Definition b64_char (n : N) : byte := nth (N.to_nat n) alphabet pad.

Fixpoint index_from (i : N) (c : byte) (l : list byte) : option N :=
  match l with
  | [] => None
  | x :: l' => if Byte.eqb x c then Some i else index_from (N.succ i) c l'
  end.

(** The 6-bit value of a character, [None] outside the alphabet. *)
Definition b64_index (c : byte) : option N := index_from 0 c alphabet.

Definition byte_of_N (n : N) : byte :=
  match Byte.of_N (n mod 256) with
  | Some b => b
  | None => "000"%byte
  end.

(** [b64encode]: three bytes give four characters; a last group of one or
    two bytes is padded with [=]. *)
Fixpoint b64encode (s : list byte) : list byte :=
  match s with
  | [] => []
  | [a] =>
      let n := Byte.to_N a * 65536 in
      [b64_char (n / 262144); b64_char ((n / 4096) mod 64); pad; pad]
  | [a; b] =>
      let n := Byte.to_N a * 65536 + Byte.to_N b * 256 in
      [b64_char (n / 262144); b64_char ((n / 4096) mod 64);
       b64_char ((n / 64) mod 64); pad]
  | a :: b :: c :: rest =>
      let n := Byte.to_N a * 65536 + Byte.to_N b * 256 + Byte.to_N c in
      b64_char (n / 262144) :: b64_char ((n / 4096) mod 64)
        :: b64_char ((n / 64) mod 64) :: b64_char (n mod 64)
        :: b64encode rest
  end.

Definition is_nil {A} (l : list A) : bool :=
  match l with [] => true | _ => false end.

(** [b64decode] on text without foreign characters: groups of four
    characters, padding allowed in the last group only; [None] stands for
    [binascii.Error]. *)
Fixpoint b64decode (s : list byte) : option (list byte) :=
  match s with
  | [] => Some []
  | c0 :: c1 :: c2 :: c3 :: rest =>
      if Byte.eqb c3 pad && is_nil rest then
        if Byte.eqb c2 pad then
          i0 ← b64_index c0; i1 ← b64_index c1;
          Some [byte_of_N ((i0 * 262144 + i1 * 4096) / 65536)]
        else
          i0 ← b64_index c0; i1 ← b64_index c1; i2 ← b64_index c2;
          let n := i0 * 262144 + i1 * 4096 + i2 * 64 in
          Some [byte_of_N (n / 65536); byte_of_N (n / 256)]
      else
        i0 ← b64_index c0; i1 ← b64_index c1; i2 ← b64_index c2;
        i3 ← b64_index c3;
        let n := i0 * 262144 + i1 * 4096 + i2 * 64 + i3 in
        tail ← b64decode rest;
        Some (byte_of_N (n / 65536) :: byte_of_N (n / 256)
                :: byte_of_N n :: tail)
  | _ => None
  end.

End Base64.

(** ** [config.py]: the environment table *)

Module Config.

Definition EBAY_SANDBOX : gmap string string :=
  <["consent_url" := "https://auth.sandbox.ebay.com/oauth2/authorize"]>
  (<["token_url" := "https://api.sandbox.ebay.com/identity/v1/oauth2/token"]>
  (<["api_base" := "https://api.sandbox.ebay.com"]> ∅)).

Definition EBAY_PRODUCTION : gmap string string :=
  <["consent_url" := "https://auth.ebay.com/oauth2/authorize"]>
  (<["token_url" := "https://api.ebay.com/identity/v1/oauth2/token"]>
  (<["api_base" := "https://api.ebay.com"]> ∅)).

Definition ENVIRONMENTS : gmap string (gmap string string) :=
  <["sandbox" := EBAY_SANDBOX]> (<["production" := EBAY_PRODUCTION]> ∅).

End Config.

(** ** The client object and the world around it *)

Record EbayOAuthClient : Type := {
  client_id : string;
  client_secret : string;
  refresh_token : string;
  environment : string;
  token_url : string;
  api_base : string;
  _access_token : pyval;   (* [str | None] *)
  _token_expiry : Q
}.

(** The keyword arguments of [client.post]. *)
Record Request : Type := {
  url : string;
  headers : list (string * string);
  data : list (string * string)
}.

(** What a POST comes back with: a response of some status, or no response
    at all (connection refused, timeout, ...). *)
Inductive Outcome : Type :=
| NoResponse
| Reply (r : Response).

(** The world as the manager sees it: the successive readings of
    [time.time()], the server's answer to each request given the requests
    before it, and the requests posted so far. *)
Record World : Type := {
  clock : nat -> Q;
  reads : nat;
  server : list Request -> Request -> Outcome;
  sent : list Request
}.

(** The latest clock reading made. *)
Definition last_reading (w : World) : Q := clock w (Nat.pred (reads w)).

(** ** The monad of methods *)

Definition M (A : Type) : Type :=
  EbayOAuthClient -> World -> result A * EbayOAuthClient * World.

Definition ret {A} (a : A) : M A := fun self w => (Ok a, self, w).

Definition raise {A} (e : exn) : M A := fun self w => (Raise e, self, w).

Definition bind {A B} (m : M A) (k : A -> M B) : M B :=
  fun self w =>
    match m self w with
    | (Ok a, self', w') => k a self' w'
    | (Raise e, self', w') => (Raise e, self', w')
    end.

Notation "x <- m ;; k" := (bind m (fun x => k))
  (at level 100, m at next level, right associativity).
Notation "m ;;; k" := (bind m (fun _ => k))
  (at level 100, right associativity).

Definition lift {A} (r : result A) : M A := fun self w => (r, self, w).

Definition get_self : M EbayOAuthClient := fun self w => (Ok self, self, w).

(** Assignment to the two cache attributes; the other attributes are never
    assigned after [__init__]. *)
Definition with_cache (self : EbayOAuthClient) (tok : pyval) (expiry : Q)
  : EbayOAuthClient :=
  {| client_id := client_id self; client_secret := client_secret self;
     refresh_token := refresh_token self; environment := environment self;
     token_url := token_url self; api_base := api_base self;
     _access_token := tok; _token_expiry := expiry |}.

Definition set_access_token (v : pyval) : M unit :=
  fun self w => (Ok tt, with_cache self v (_token_expiry self), w).

Definition set_token_expiry (t : Q) : M unit :=
  fun self w => (Ok tt, with_cache self (_access_token self) t, w).

(** The world after one more clock reading, and after one more request. *)
Definition tick (w : World) : World :=
  {| clock := clock w; reads := S (reads w);
     server := server w; sent := sent w |}.

Definition posted (w : World) (req : Request) : World :=
  {| clock := clock w; reads := reads w;
     server := server w; sent := sent w ++ [req] |}.

(** [time.time()]: the next reading of the clock. *)
Definition time_time : M Q :=
  fun self w => (Ok (clock w (reads w)), self, tick w).

(** [client.post(url, headers=..., data=...)] inside [with httpx.Client()]:
    the request goes out, and httpx raises when no response comes back. *)
Definition client_post (req : Request) : M Response :=
  fun self w =>
    match server w (sent w) req with
    | Reply r => (Ok r, self, posted w req)
    | NoResponse => (Raise RequestError, self, posted w req)
    end.

(** [response.raise_for_status()]: any status outside 200..299 raises. *)
Definition is_success (r : Response) : bool :=
  (200 <=? status_code r) && (status_code r <? 300).

Definition raise_for_status (r : Response) : M unit :=
  if is_success r then ret tt else raise (HTTPStatusError r).

(** [response.json()] *)
Definition response_json (r : Response) : M pyval :=
  match json_body r with
  | Some v => ret v
  | None => raise JSONDecodeError
  end.

(** [data.get(key)] and [data.get(key, default)]; only a dict has [get]. *)
Definition py_get (v : pyval) (key : string) (default : pyval) : M pyval :=
  match v with
  | PDict d =>
      match d !! key with
      | Some x => ret x
      | None => ret default
      end
  | _ => raise AttributeError
  end.

(** [x < y] on instants, as a boolean. *)
Definition Qltb (x y : Q) : bool := negb (Qle_bool y x).

(** The least magnitude an int cannot have when it is converted to a float:
    from 2^1024 - 2^970 on, rounding to 53 bits reaches 2^1024 and the
    conversion raises [OverflowError]. *)
Definition float_limit : Z := 2 ^ 1024 - 2 ^ 970.

(** [x + n] for a float [x] and an int [n]: the int is converted first. *)
Definition float_add_int (x : Q) (n : Z) : result Q :=
  if Z.abs n <? float_limit then Ok (x + inject_Z n)%Q
  else Raise OverflowError.

(** ** [EbayOAuthClient] *)

Definition str_encode (s : string) : list byte := String.list_byte_of_string s.
Definition bytes_decode (b : list byte) : string := String.string_of_list_byte b.

(** [__init__]: the environment is resolved at construction. *)
Definition __init__ (client_id client_secret refresh_token environment : string)
  : result EbayOAuthClient :=
  let env_config := Config.ENVIRONMENTS !! environment in
  match env_config with
  | None =>
      Raise (ValueError ("Unknown environment: " +:+ environment
                         +:+ ". Use 'sandbox' or 'production'."))
  | Some cfg =>
      if negb (nonempty (map_to_list cfg)) then
        Raise (ValueError ("Unknown environment: " +:+ environment
                           +:+ ". Use 'sandbox' or 'production'."))
      else
        match cfg !! "token_url", cfg !! "api_base" with
        | None, _ => Raise (KeyError "token_url")
        | Some _, None => Raise (KeyError "api_base")
        | Some tu, Some ab =>
            Ok {| client_id := client_id; client_secret := client_secret;
                  refresh_token := refresh_token; environment := environment;
                  token_url := tu; api_base := ab;
                  _access_token := PNone; _token_expiry := 0 |}
        end
  end.

(** [_basic_auth_header]: "Basic " and base64(client_id:client_secret). *)
Definition _basic_auth_header (self : EbayOAuthClient) : string :=
  let credentials := client_id self +:+ ":" +:+ client_secret self in
  let encoded := bytes_decode (Base64.b64encode (str_encode credentials)) in
  "Basic " +:+ encoded.

(** The request [_refresh_access_token] posts. *)
Definition refresh_request (self : EbayOAuthClient) : Request :=
  {| url := token_url self;
     headers := [("Content-Type", "application/x-www-form-urlencoded");
                 ("Authorization", _basic_auth_header self)];
     data := [("grant_type", "refresh_token");
              ("refresh_token", refresh_token self)] |}.

Section Methods.

(** [int] applied to a [str]: the builtin's parser, left abstract. *)
Variable int_of_str : string -> option Z.

(** [_refresh_access_token]: exchange the refresh token for a new access
    token. In [time.time() + int(expires_in)] the clock is read first, then
    [int] is applied, then the sum is taken, which converts the int. *)
Definition _refresh_access_token : M pyval :=
  self <- get_self ;;
  response <- client_post (refresh_request self) ;;
  raise_for_status response ;;;
  data <- response_json response ;;
  access_token <- py_get data "access_token" PNone ;;
  if negb (truthy access_token) then raise (RuntimeError data)
  else
    set_access_token access_token ;;;
    expires_in <- py_get data "expires_in" (PInt 7200) ;;
    now <- time_time ;;
    seconds <- lift (Py.int int_of_str expires_in) ;;
    expiry <- lift (float_add_int now seconds) ;;
    set_token_expiry expiry ;;;
    ret access_token.

(** [get_access_token]: the cached token while it is valid for more than
    60 more seconds, a refreshed one otherwise. [and] reads the clock only
    when a token is cached. *)
Definition get_access_token : M pyval :=
  self <- get_self ;;
  if truthy (_access_token self) then
    now <- time_time ;;
    if Qltb now (_token_expiry self - 60)%Q then ret (_access_token self)
    else _refresh_access_token
  else _refresh_access_token.

(** [force_refresh]: drop the cache, then refresh. *)
Definition force_refresh : M pyval :=
  set_access_token PNone ;;;
  set_token_expiry 0%Q ;;;
  _refresh_access_token.

End Methods.

(** ** Concrete worlds for the examples *)

Module Examples.

(** A parser of plain decimal literals (optional sign, then digits) to stand
    for [int] on strings where a concrete one is needed; the theorems hold
    for every parser. *)
Definition digit_of_ascii (c : ascii) : option Z :=
  let n := Z.of_N (N_of_ascii c) in
  if (48 <=? n) && (n <=? 57) then Some (n - 48) else None.

Fixpoint digits_value (acc : Z) (s : string) : option Z :=
  match s with
  | EmptyString => Some acc
  | String c s' => d ← digit_of_ascii c; digits_value (10 * acc + d) s'
  end.

Definition plain_int_of_str (s : string) : option Z :=
  match s with
  | EmptyString => None
  | String "-" (String _ _ as s') => Z.opp <$> digits_value 0 s'
  | String "+" (String _ _ as s') => digits_value 0 s'
  | String _ _ => digits_value 0 s
  end.

(** The client of the test fixture. *)
Definition fixture : EbayOAuthClient :=
  {| client_id := "test_client_id"; client_secret := "test_client_secret";
     refresh_token := "test_refresh_token"; environment := "sandbox";
     token_url := "https://api.sandbox.ebay.com/identity/v1/oauth2/token";
     api_base := "https://api.sandbox.ebay.com";
     _access_token := PNone; _token_expiry := 0 |}.

(** A world whose clock always reads [t] and whose server always answers
    [o]; nothing has been read or sent yet. *)
Definition world (t : Q) (o : Outcome) : World :=
  {| clock := fun _ => t; reads := 0%nat;
     server := fun _ _ => o; sent := [] |}.

Definition ok_body (fields : list (string * pyval)) : Outcome :=
  Reply {| status_code := 200; json_body := Some (PDict (list_to_map fields)) |}.

Definition token_reply (tok : string) (expires_in : Z) : Outcome :=
  ok_body [("access_token", PStr tok); ("expires_in", PInt expires_in)].

Definition status_reply (status : Z) : Outcome :=
  Reply {| status_code := status; json_body := None |}.

End Examples.
Import Examples.

(** ** Vocabulary of the properties *)

(** The attributes fixed at construction. *)
Definition same_config (a b : EbayOAuthClient) : Prop :=
  client_id a = client_id b /\ client_secret a = client_secret b /\
  refresh_token a = refresh_token b /\ environment a = environment b /\
  token_url a = token_url b /\ api_base a = api_base b.

(** The states a manager can be in: fresh from [__init__], or left by a call
    of a public method, whether it returned or raised. *)
Inductive reachable (int_of_str : string -> option Z)
  : EbayOAuthClient -> Prop :=
| reach_init cid cs rt env self :
    __init__ cid cs rt env = Ok self -> reachable int_of_str self
| reach_get self w r self' w' :
    reachable int_of_str self ->
    get_access_token int_of_str self w = (r, self', w') ->
    reachable int_of_str self'
| reach_force self w r self' w' :
    reachable int_of_str self ->
    force_refresh int_of_str self w = (r, self', w') ->
    reachable int_of_str self'.

(** The [expires_in] a response body carries: the field, or 7200. *)
Definition expires_in_of (d : gmap string pyval) : pyval :=
  default (PInt 7200) (d !! "expires_in").

(** What a run of a method gives. *)
Definition returned {A} (x : result A * EbayOAuthClient * World) : result A :=
  fst (fst x).
Definition client_after {A} (x : result A * EbayOAuthClient * World)
  : EbayOAuthClient := snd (fst x).
Definition world_after {A} (x : result A * EbayOAuthClient * World) : World :=
  snd x.

(** [_refresh_access_token] written out by cases on the server's answer [o],
    in the order the code meets them ([refresh_cases] proves the two equal). *)
Definition exchange (int_of_str : string -> option Z)
  (self : EbayOAuthClient) (w : World) (o : Outcome)
  : result pyval * EbayOAuthClient * World :=
  let w1 := posted w (refresh_request self) in
  match o with
  | NoResponse => (Raise RequestError, self, w1)
  | Reply r =>
      if is_success r then
        match json_body r with
        | None => (Raise JSONDecodeError, self, w1)
        | Some (PDict d) =>
            let tok := default PNone (d !! "access_token") in
            if truthy tok then
              match Py.int int_of_str (expires_in_of d) with
              | Ok n =>
                  match float_add_int (clock w (reads w)) n with
                  | Ok expiry => (Ok tok, with_cache self tok expiry, tick w1)
                  | Raise e =>
                      (Raise e, with_cache self tok (_token_expiry self),
                       tick w1)
                  end
              | Raise e =>
                  (Raise e, with_cache self tok (_token_expiry self), tick w1)
              end
            else (Raise (RuntimeError (PDict d)), self, w1)
        | Some _ => (Raise AttributeError, self, w1)
        end
      else (Raise (HTTPStatusError r), self, w1)
  end.

(** A computation that keeps the attributes fixed at construction. *)
Definition keeps_config {A} (m : M A) : Prop :=
  forall self w, same_config self (client_after (m self w)).

(** ** [cli.py]: the authorization-code exchange *)

Module Cli.

(** [_exchange_code_for_tokens]: a function of the world alone. The
    environment is indexed, not looked up with [get], and the parsed body
    is returned as it is. *)
Definition _exchange_code_for_tokens
  (code environment client_id client_secret runame : string) (w : World)
  : result pyval * World :=
  match Config.ENVIRONMENTS !! environment with
  | None => (Raise (KeyError environment), w)
  | Some env_config =>
      let credentials :=
        bytes_decode
          (Base64.b64encode (str_encode (client_id +:+ ":" +:+ client_secret)))
      in
      match env_config !! "token_url" with
      | None => (Raise (KeyError "token_url"), w)
      | Some token_url =>
          let req :=
            {| url := token_url;
               headers :=
                 [("Content-Type", "application/x-www-form-urlencoded");
                  ("Authorization", "Basic " +:+ credentials)];
               data := [("grant_type", "authorization_code");
                        ("code", code);
                        ("redirect_uri", runame)] |} in
          match server w (sent w) req with
          | NoResponse => (Raise RequestError, posted w req)
          | Reply response =>
              if is_success response then
                match json_body response with
                | Some v => (Ok v, posted w req)
                | None => (Raise JSONDecodeError, posted w req)
                end
              else (Raise (HTTPStatusError response), posted w req)
          end
      end
  end.

(** The request of the code exchange, written for a manager [c] of the
    same environment and credentials. *)
Definition code_request (c : EbayOAuthClient) (code runame : string)
  : Request :=
  {| url := token_url c;
     headers := headers (refresh_request c);
     data := [("grant_type", "authorization_code"); ("code", code);
              ("redirect_uri", runame)] |}.

End Cli.

(** ** [server.py]: the callback listener *)

Module Server.

Definition CALLBACK_PORT_RANGE : Z * Z := (8880, 8899).

(** [range(a, b)] *)
Definition py_range (a b : Z) : list Z :=
  map (fun i => a + Z.of_nat i) (seq 0 (Z.to_nat (b - a))).

(** The [for] loop of [_find_available_port]: [can_bind port] tells whether
    creating the socket and binding it to the port goes through ([true]) or
    raises [OSError] ([false]); the first port that binds is returned. *)
Fixpoint first_port (can_bind : Z -> bool) (ports : list Z) : option Z :=
  match ports with
  | [] => None
  | port :: rest => if can_bind port then Some port else first_port can_bind rest
  end.

Definition _find_available_port (can_bind : Z -> bool) : result Z :=
  let '(start, end_) := CALLBACK_PORT_RANGE in
  match first_port can_bind (py_range start (end_ + 1)) with
  | Some port => Ok port
  | None => Raise (RuntimeError (PStr "No available port in range 8880-8899"))
  end.

(** The token bundle a good callback leaves in [callback_result]. *)
Record Bundle : Type := {
  access_token : option string;
  refresh_token : option string;
  expires_in : option string;
  refresh_token_expires_in : option string
}.

(** The attributes [start_callback_server] hangs on the [HTTPServer], and
    whether its socket has been closed. *)
Record CallbackServer : Type := {
  expected_nonce : string;
  callback_result : option Bundle;
  callback_error : option string;
  callback_done : bool;
  closed : bool
}.

(** What the handler writes back. *)
Record Written : Type := {
  status : Z;
  content_type : option string;
  body : string
}.

(** [urlparse(...)], as far as the handler reads it. *)
Record ParseResult : Type := { path : string; query : string }.

(** The double quote, which the pages' attributes are written with. *)
Definition dq : string := String (Ascii.ascii_of_nat 34) EmptyString.

Definition SUCCESS_HTML : string :=
  "<!DOCTYPE html>
<html>
<head><title>eBay Connected</title>
<style>
body { font-family: -apple-system, BlinkMacSystemFont, 'Segoe UI', Roboto, sans-serif;
  display: flex; justify-content: center; align-items: center; height: 100vh; margin: 0; background: #f5f5f5; }
.container { text-align: center; background: white; padding: 40px; border-radius: 8px;
  box-shadow: 0 2px 4px rgba(0,0,0,0.1); }
h1 { color: #0654ba; }
.checkmark { font-size: 64px; color: #0654ba; }
</style></head>
<body><div class="
    +:+ dq +:+ "container"
    +:+ dq +:+ ">
<div class="
    +:+ dq +:+ "checkmark"
    +:+ dq +:+ ">&#10003;</div>
<h1>eBay Connected!</h1>
<p>Your credentials have been securely stored.</p>
<p>You can close this window and return to the terminal.</p>
</div></body></html>".

(** [ERROR_HTML], cut at its one [%s]. *)
Definition ERROR_HTML_before : string :=
  "<!DOCTYPE html>
<html>
<head><title>Connection Failed</title>
<style>
body { font-family: -apple-system, BlinkMacSystemFont, 'Segoe UI', Roboto, sans-serif;
  display: flex; justify-content: center; align-items: center; height: 100vh; margin: 0; background: #f5f5f5; }
.container { text-align: center; background: white; padding: 40px; border-radius: 8px;
  box-shadow: 0 2px 4px rgba(0,0,0,0.1); }
h1 { color: #cc0000; }
.error-icon { font-size: 64px; color: #cc0000; }
.details { background: #f5f5f5; padding: 12px; border-radius: 4px; font-family: monospace; }
</style></head>
<body><div class="
    +:+ dq +:+ "container"
    +:+ dq +:+ ">
<div class="
    +:+ dq +:+ "error-icon"
    +:+ dq +:+ ">&#10007;</div>
<h1>Connection Failed</h1>
<div class="
    +:+ dq +:+ "details"
    +:+ dq +:+ ">".

Definition ERROR_HTML_after : string :=
  "</div>
</div></body></html>".

(** [ERROR_HTML % message] *)
Definition error_page (message : string) : string :=
  ERROR_HTML_before +:+ message +:+ ERROR_HTML_after.

(** [_send_error] *)
Definition _send_error (message : string) : Written :=
  {| status := 400; content_type := Some "text/html";
     body := error_page message |}.

(** [if x:] on a [str | None]. *)
Definition nonblank (x : option string) : bool :=
  match x with
  | Some s => negb (String.eqb s "")
  | None => false
  end.

Definition finish (srv : CallbackServer) (result : option Bundle)
  (error : option string) : CallbackServer :=
  {| expected_nonce := expected_nonce srv;
     callback_result := result; callback_error := error;
     callback_done := true; closed := closed srv |}.

Section Handler.

(** [urlparse] and [parse_qs] of [urllib.parse]; [parse_qs] maps a name to
    the list of its values, which is never empty. *)
Variable urlparse : string -> ParseResult.
Variable parse_qs : string -> gmap string (string * list string).

(** [params.get(name, [None])[0]] *)
Definition first_value (params : gmap string (string * list string))
  (name : string) : option string :=
  fst <$> params !! name.

(** [do_GET]: what is written back and what becomes of the server's
    attributes, for the request line's path. *)
Definition do_GET (self_path : string) (srv : CallbackServer)
  : Written * CallbackServer :=
  let parsed := urlparse self_path in
  if negb (String.eqb (path parsed) "/callback") then
    ({| status := 404; content_type := None; body := "Not found" |}, srv)
  else
    let params := parse_qs (query parsed) in
    let received_nonce := first_value params "nonce" in
    if negb (bool_decide (received_nonce = Some (expected_nonce srv))) then
      (_send_error "Invalid security token (nonce mismatch)",
       finish srv (callback_result srv) (Some "Nonce mismatch"))
    else
      let error := first_value params "error" in
      if nonblank error then
        let desc :=
          match params !! "error_description" with
          | Some (v, _) => v
          | None => default "" error
          end in
        (_send_error desc, finish srv (callback_result srv) (Some desc))
      else
        let access_token := first_value params "access_token" in
        let refresh_token := first_value params "refresh_token" in
        if negb (nonblank refresh_token) then
          (_send_error "Missing refresh token in callback",
           finish srv (callback_result srv) (Some "Missing refresh token"))
        else
          ({| status := 200; content_type := Some "text/html";
              body := SUCCESS_HTML |},
           finish srv
             (Some {| access_token := access_token;
                      refresh_token := refresh_token;
                      expires_in := first_value params "expires_in";
                      refresh_token_expires_in :=
                        first_value params "refresh_token_expires_in" |})
             (callback_error srv)).

End Handler.

(** [start_callback_server]: the port is searched, the nonce drawn, the
    [HTTPServer] bound to the port ([can_listen], an [OSError] when it
    cannot) and the attributes set; the socket tried during the search was
    closed again, so the second binding is a new one. *)
Inductive Started : Type :=
| Listening (port : Z) (nonce : string) (srv : CallbackServer)
| NoPort (e : exn)
| BindError.

Definition start_callback_server (can_bind can_listen : Z -> bool)
  (nonce : string) : Started :=
  match _find_available_port can_bind with
  | Raise e => NoPort e
  | Ok port =>
      if can_listen port then
        Listening port nonce
          {| expected_nonce := nonce; callback_result := None;
             callback_error := None; callback_done := false;
             closed := false |}
      else BindError
  end.

(** What one [server.handle_request()] meets within its second: nothing, a
    GET for some path, or a request the handler has no method for. *)
Inductive Arrival : Type :=
| Nothing
| Get (self_path : string)
| Other.

(** How [wait_for_callback] ends. *)
Inductive Waited : Type :=
| Returned (result : option Bundle)
| TimeoutError
| OAuthError (message : string).

Definition server_close (srv : CallbackServer) : CallbackServer :=
  {| expected_nonce := expected_nonce srv;
     callback_result := callback_result srv;
     callback_error := callback_error srv;
     callback_done := callback_done srv; closed := true |}.

Section Waiting.

Variable urlparse : string -> ParseResult.
Variable parse_qs : string -> gmap string (string * list string).

Definition handle_request (a : Arrival) (srv : CallbackServer)
  : CallbackServer :=
  match a with
  | Get self_path => snd (do_GET urlparse parse_qs self_path srv)
  | Nothing | Other => srv
  end.

(** The [while] loop, over the polls the world has in store: each one is
    the reading of [time.monotonic()] at the test and what the following
    [handle_request] meets. [Some (true, _)] is the raise of [TimeoutError],
    [Some (false, _)] the normal exit, [None] a loop still running when the
    polls end. *)
Fixpoint polling (deadline : Q) (polls : list (Q * Arrival))
  (srv : CallbackServer) : option (bool * CallbackServer) :=
  if callback_done srv then Some (false, srv)
  else
    match polls with
    | [] => None
    | (now, a) :: rest =>
        if Qltb deadline now then Some (true, srv)
        else polling deadline rest (handle_request a srv)
    end.

(** [wait_for_callback]: [started] is the first reading of the clock. The
    [finally] closes the server on both exits of the loop. *)
Definition wait_for_callback (srv : CallbackServer) (timeout : Z)
  (started : Q) (polls : list (Q * Arrival))
  : option (Waited * CallbackServer) :=
  let deadline := (started + inject_Z timeout)%Q in
  match polling deadline polls srv with
  | None => None
  | Some (true, srv') => Some (TimeoutError, server_close srv')
  | Some (false, srv') =>
      let srv'' := server_close srv' in
      if nonblank (callback_error srv'') then
        Some (OAuthError ("OAuth error: " +:+ default "" (callback_error srv'')),
              srv'')
      else Some (Returned (callback_result srv''), srv'')
  end.

(** A poll that leaves the wait as it is: made in time, and meeting nothing,
    a request that is not a GET, or a GET for another path. *)
Definition idle (deadline : Q) (poll : Q * Arrival) : Prop :=
  (fst poll <= deadline)%Q /\
  match snd poll with
  | Get self_path => path (urlparse self_path) <> "/callback"
  | Nothing | Other => True
  end.

End Waiting.

End Server.

(** ** [token_storage.py]: the credentials in the keychain *)

Module TokenStorage.

Definition KEYRING_SERVICE : string := "ebay-oauth".
Definition KEYRING_ACCOUNT : string := "oauth-credentials".

Section Storage.

(** The keychain behind [keyring], with its three calls, each of which may
    raise; and [json.dumps] and [json.loads]. *)
Variable K : Type.
Variable set_password : string -> string -> string -> K -> result unit * K.
Variable get_password : string -> string -> K -> result (option string) * K.
Variable delete_password : string -> string -> K -> result unit * K.
Variable json_dumps : pyval -> result string.
Variable json_loads : string -> result pyval.

(** [store_credentials]: nothing is caught. *)
Definition store_credentials (credentials : pyval) (k : K)
  : result unit * K :=
  match json_dumps credentials with
  | Raise e => (Raise e, k)
  | Ok text => set_password KEYRING_SERVICE KEYRING_ACCOUNT text k
  end.

(** [get_credentials]: [PNone] is the [None] it returns. *)
Definition get_credentials (k : K) : pyval * K :=
  match get_password KEYRING_SERVICE KEYRING_ACCOUNT k with
  | (Raise _, k') => (PNone, k')
  | (Ok data, k') =>
      if Server.nonblank data then
        match json_loads (default "" data) with
        | Ok v => (v, k')
        | Raise _ => (PNone, k')
        end
      else (PNone, k')
  end.

(** [delete_credentials] *)
Definition delete_credentials (k : K) : bool * K :=
  match delete_password KEYRING_SERVICE KEYRING_ACCOUNT k with
  | (Ok _, k') => (true, k')
  | (Raise _, k') => (false, k')
  end.

(** [has_credentials]: [get_credentials() is not None]. *)
Definition has_credentials (k : K) : bool * K :=
  match get_credentials k with
  | (PNone, k') => (false, k')
  | (_, k') => (true, k')
  end.

End Storage.

End TokenStorage.

(** ** Stand-ins for the libraries, for the examples *)

Module Stubs.

(** A [urlparse] for request lines of the form path?query, and a
    [parse_qs] for queries name=value&name=value without escapes; they
    agree with [urllib.parse] on the request lines of the examples. *)
Fixpoint split_at (c : ascii) (s : string) : string * option string :=
  match s with
  | EmptyString => (EmptyString, None)
  | String x s' =>
      if Ascii.eqb x c then (EmptyString, Some s')
      else let '(a, b) := split_at c s' in (String x a, b)
  end.

Fixpoint fields (fuel : nat) (s : string) : list string :=
  match fuel with
  | O => [s]
  | S fuel' =>
      match split_at "&" s with
      | (a, None) => [a]
      | (a, Some rest) => a :: fields fuel' rest
      end
  end.

Definition urlparse (s : string) : Server.ParseResult :=
  let '(p, q) := split_at "?" s in
  {| Server.path := p; Server.query := default "" q |}.

Definition add_value (m : gmap string (string * list string))
  (field : string) : gmap string (string * list string) :=
  match split_at "=" field with
  | (name, Some value) =>
      if String.eqb value "" then m
      else
        match m !! name with
        | None => <[name := (value, [])]> m
        | Some (v, vs) => <[name := (v, vs ++ [value])]> m
        end
  | (_, None) => m
  end.

Definition parse_qs (q : string) : gmap string (string * list string) :=
  fold_left add_value (fields (String.length q) q) ∅.

(** A keychain in memory: a map from service and account to the password;
    deleting what is not there raises. *)
Definition keychain : Type := gmap (string * string) string.

Definition set_password (service account password : string) (k : keychain)
  : result unit * keychain :=
  (Ok tt, <[(service, account) := password]> k).

Definition get_password (service account : string) (k : keychain)
  : result (option string) * keychain :=
  (Ok (k !! (service, account)), k).

Definition delete_password (service account : string) (k : keychain)
  : result unit * keychain :=
  match k !! (service, account) with
  | Some _ => (Ok tt, delete (service, account) k)
  | None => (Raise (KeyError account), k)
  end.

(** [json.dumps] and [json.loads] on the empty record and its text. *)
Definition json_dumps (v : pyval) : result string :=
  match v with
  | PDict d => if nonempty (map_to_list d) then Raise TypeError else Ok "{}"
  | _ => Raise TypeError
  end.

Definition json_loads (text : string) : result pyval :=
  if String.eqb text "{}" then Ok (PDict ∅) else Raise JSONDecodeError.

(** A server as [start_callback_server] leaves it, with nonce abc. *)
Definition fresh_abc : Server.CallbackServer :=
  {| Server.expected_nonce := "abc"; Server.callback_result := None;
     Server.callback_error := None; Server.callback_done := false;
     Server.closed := false |}.

End Stubs.

(** * Properties *)

(** ** Base64 *)

Example b64encode_Man :
  Base64.b64encode (String.list_byte_of_string "Man") = String.list_byte_of_string "TWFu".
Proof. reflexivity. Qed.

Example b64encode_Ma :
  Base64.b64encode (String.list_byte_of_string "Ma") = String.list_byte_of_string "TWE=".
Proof. reflexivity. Qed.

Example b64decode_TQ :
  Base64.b64decode (String.list_byte_of_string "TQ==") = Some (String.list_byte_of_string "M").
Proof. reflexivity. Qed.


Module Base64Facts.
Import Base64.
Local Open Scope N_scope.

(** Induction on byte strings three bytes at a time. *)
Lemma list_ind3 {A} (P : list A -> Prop) :
  P [] -> (forall a, P [a]) -> (forall a b, P [a; b]) ->
  (forall a b c l, P l -> P (a :: b :: c :: l)) ->
  forall l, P l.
Proof.
  intros H0 H1 H2 H3 l.
  assert (H : P l /\ (forall a, P (a :: l)) /\ (forall a b, P (a :: b :: l))).
  { induction l as [|x l IH]; [auto|].
    destruct IH as (IH0 & IH1 & IH2). repeat split; auto. }
  apply H.
Qed.

Lemma sextet_cases (n : N) :
  n < 64 -> In n (map N.of_nat (seq 0 64)).
Proof.
  intros H. apply in_map_iff. exists (N.to_nat n). split; [lia|].
  apply in_seq. lia.
Qed.

Lemma b64_index_char n : n < 64 -> b64_index (b64_char n) = Some n.
Proof.
  intros H. apply sextet_cases in H. revert n H. apply List.Forall_forall.
  vm_compute. repeat constructor.
Qed.

Lemma b64_char_not_pad n : n < 64 -> Byte.eqb (b64_char n) pad = false.
Proof.
  intros H. apply sextet_cases in H. revert n H. apply List.Forall_forall.
  vm_compute. repeat constructor.
Qed.

Lemma byte_of_N_to_N a : byte_of_N (Byte.to_N a) = a.
Proof.
  unfold byte_of_N. pose proof (Byte.to_N_bounded a).
  rewrite N.mod_small by lia. by rewrite Byte.of_to_N.
Qed.

Lemma byte_of_N_eq x a : x mod 256 = Byte.to_N a -> byte_of_N x = a.
Proof.
  intros H. rewrite <- (byte_of_N_to_N a). unfold byte_of_N.
  rewrite H. rewrite N.mod_small; [done|].
  pose proof (Byte.to_N_bounded a). lia.
Qed.

Ltac euclid := Z.to_euclidean_division_equations; lia.

(** Splitting 24 bits into four sextets and joining them again. *)
Lemma sextets_join n :
  n < 16777216 ->
  n / 262144 < 64 /\
  n / 262144 * 262144 + (n / 4096) mod 64 * 4096
    + (n / 64) mod 64 * 64 + n mod 64 = n.
Proof. intros H. split; zify; euclid. Qed.

Lemma bytes_split (a b c : N) :
  a <= 255 -> b <= 255 -> c <= 255 ->
  let n := a * 65536 + b * 256 + c in
  n < 16777216 /\ (n / 65536) mod 256 = a /\ (n / 256) mod 256 = b /\
  n mod 256 = c.
Proof. intros Ha Hb Hc n. subst n. repeat split; zify; euclid. Qed.

#[local] Arguments b64_char : simpl never.
#[local] Arguments b64_index : simpl never.
#[local] Arguments byte_of_N : simpl never.
#[local] Arguments Byte.eqb : simpl never.
#[local] Arguments N.mul : simpl never.
#[local] Arguments N.add : simpl never.
#[local] Arguments N.div : simpl never.
#[local] Arguments N.modulo : simpl never.

Lemma mod64_lt n : n mod 64 < 64.
Proof. apply N.mod_lt. lia. Qed.

(** One full group of three bytes. *)
Lemma b64decode_group a b c rest tail :
  b64decode rest = Some tail ->
  let n := Byte.to_N a * 65536 + Byte.to_N b * 256 + Byte.to_N c in
  b64decode (b64_char (n / 262144) :: b64_char ((n / 4096) mod 64)
               :: b64_char ((n / 64) mod 64) :: b64_char (n mod 64) :: rest)
  = Some (a :: b :: c :: tail).
Proof.
  intros Hrest n.
  destruct (bytes_split (Byte.to_N a) (Byte.to_N b) (Byte.to_N c))
    as (Hn & Ha & Hb & Hc); try apply Byte.to_N_bounded.
  fold n in Hn, Ha, Hb, Hc.
  destruct (sextets_join n Hn) as (H0 & Hjoin).
  cbn [b64decode].
  rewrite (b64_char_not_pad (n mod 64)) by apply mod64_lt.
  cbn [andb].
  rewrite !b64_index_char by (assumption || apply mod64_lt).
  cbn [mbind option_bind]. rewrite Hrest. cbn [mbind option_bind].
  rewrite Hjoin.
  by rewrite (byte_of_N_eq _ a Ha), (byte_of_N_eq _ b Hb),
    (byte_of_N_eq _ c Hc).
Qed.

Lemma pad_is_pad : Byte.eqb pad pad = true.
Proof. reflexivity. Qed.

(** A last group of one byte. *)
Lemma b64decode_last1 a :
  let n := Byte.to_N a * 65536 in
  b64decode [b64_char (n / 262144); b64_char ((n / 4096) mod 64); pad; pad]
  = Some [a].
Proof.
  intros n. pose proof (Byte.to_N_bounded a) as Ha.
  assert (H0 : n / 262144 < 64) by (subst n; zify; euclid).
  cbn [b64decode is_nil]. rewrite pad_is_pad. cbn [andb].
  rewrite !b64_index_char by (assumption || apply mod64_lt).
  cbn [mbind option_bind]. f_equal. f_equal.
  apply byte_of_N_eq. subst n. zify; euclid.
Qed.

(** A last group of two bytes. *)
Lemma b64decode_last2 a b :
  let n := Byte.to_N a * 65536 + Byte.to_N b * 256 in
  b64decode [b64_char (n / 262144); b64_char ((n / 4096) mod 64);
             b64_char ((n / 64) mod 64); pad]
  = Some [a; b].
Proof.
  intros n. pose proof (Byte.to_N_bounded a) as Ha.
  pose proof (Byte.to_N_bounded b) as Hb.
  assert (H0 : n / 262144 < 64) by (subst n; zify; euclid).
  cbn [b64decode is_nil]. rewrite pad_is_pad. cbn [andb].
  rewrite (b64_char_not_pad ((n / 64) mod 64)) by apply mod64_lt.
  rewrite !b64_index_char by (assumption || apply mod64_lt).
  cbn [mbind option_bind]. f_equal.
  f_equal; [|f_equal]; apply byte_of_N_eq; subst n; zify; euclid.
Qed.

(** Decoding undoes encoding, for every byte string. *)
Lemma b64decode_b64encode s : b64decode (b64encode s) = Some s.
Proof.
  induction s as [|a|a b|a b c rest IH] using list_ind3.
  - reflexivity.
  - apply b64decode_last1.
  - apply b64decode_last2.
  - cbn [b64encode]. by apply b64decode_group.
Qed.

End Base64Facts.

(** ** The monad and the refresh exchange *)

Lemma Qltb_lt x y : Qltb x y = true <-> (x < y)%Q.
Proof.
  unfold Qltb. rewrite negb_true_iff, <- not_true_iff_false, Qle_bool_iff.
  split; [apply Qnot_le_lt | apply Qlt_not_le].
Qed.

Lemma Qltb_ge x y : Qltb x y = false <-> (y <= x)%Q.
Proof.
  unfold Qltb. rewrite negb_false_iff. apply Qle_bool_iff.
Qed.

Lemma float_add_int_ok (x : Q) (n : Z) :
  Z.abs n < float_limit -> float_add_int x n = Ok (x + inject_Z n)%Q.
Proof.
  intros H. unfold float_add_int. apply Z.ltb_lt in H. by rewrite H.
Qed.

Lemma float_add_int_overflow (x : Q) (n : Z) :
  float_limit <= Z.abs n -> float_add_int x n = Raise OverflowError.
Proof.
  intros H. unfold float_add_int. apply Z.ltb_ge in H. by rewrite H.
Qed.

Lemma float_add_int_inv (x : Q) (n : Z) :
  (Z.abs n < float_limit /\ float_add_int x n = Ok (x + inject_Z n)%Q)
  \/ (float_limit <= Z.abs n /\ float_add_int x n = Raise OverflowError).
Proof.
  destruct (Z.lt_ge_cases (Z.abs n) float_limit) as [H|H].
  - left. split; [done | by apply float_add_int_ok].
  - right. split; [done | by apply float_add_int_overflow].
Qed.

Ltac run :=
  cbv beta iota zeta delta
    [_refresh_access_token get_access_token force_refresh
     bind ret raise lift get_self set_access_token set_token_expiry
     time_time client_post raise_for_status response_json py_get].

Lemma refresh_cases int_of_str self w :
  _refresh_access_token int_of_str self w
  = exchange int_of_str self w (server w (sent w) (refresh_request self)).
Proof.
  unfold exchange, expires_in_of. run.
  destruct (server w (sent w) (refresh_request self)) as [|r]; [done|].
  destruct (is_success r); [|done].
  destruct (json_body r) as [[]|]; try done.
  destruct (d !! "access_token") as [tok|]; cbn [default id].
  - destruct (truthy tok); cbn [negb]; [|done].
    destruct (d !! "expires_in") as [e|]; cbn [default id].
    + destruct (Py.int int_of_str e) as [n|]; [|done].
      by destruct (float_add_int _ n).
    + cbn [Py.int]. by destruct (float_add_int _ 7200).
  - done.
Qed.

Lemma get_access_token_cases int_of_str self w :
  get_access_token int_of_str self w
  = if truthy (_access_token self) then
      if Qltb (clock w (reads w)) (_token_expiry self - 60)%Q
      then (Ok (_access_token self), self, tick w)
      else _refresh_access_token int_of_str self (tick w)
    else _refresh_access_token int_of_str self w.
Proof.
  unfold get_access_token at 1. cbv beta iota delta [bind get_self time_time ret].
  destruct (truthy (_access_token self)); [|done].
  by destruct (Qltb _ _).
Qed.

Lemma force_refresh_cases int_of_str self w :
  force_refresh int_of_str self w
  = _refresh_access_token int_of_str (with_cache self PNone 0) w.
Proof. reflexivity. Qed.

Lemma refresh_request_with_cache self tok expiry :
  refresh_request (with_cache self tok expiry) = refresh_request self.
Proof. reflexivity. Qed.

(** Whatever the answer, the exchange posts exactly one request. *)
Lemma exchange_sent int_of_str self w o :
  sent (world_after (exchange int_of_str self w o))
  = sent w ++ [refresh_request self].
Proof.
  unfold exchange. destruct o as [|r]; [done|].
  destruct (is_success r); [|done].
  destruct (json_body r) as [[]|]; try done.
  destruct (truthy _); [|done].
  destruct (Py.int _ _) as [n|]; [|done]. by destruct (float_add_int _ n).
Qed.

(** A successful exchange, read backwards. *)
Lemma exchange_ok int_of_str self w o tok self' w' :
  exchange int_of_str self w o = (Ok tok, self', w') ->
  exists r d n,
    o = Reply r /\ is_success r = true /\ json_body r = Some (PDict d) /\
    d !! "access_token" = Some tok /\ truthy tok = true /\
    Py.int int_of_str (expires_in_of d) = Ok n /\
    self' = with_cache self tok (clock w (reads w) + inject_Z n)%Q /\
    w' = tick (posted w (refresh_request self)).
Proof.
  unfold exchange. destruct o as [|r]; [done|].
  destruct (is_success r) eqn:Hs; [|done].
  destruct (json_body r) as [[]|] eqn:Hb; try done.
  destruct (d !! "access_token") as [t|] eqn:Ht; cbn [default id]; [|done].
  destruct (truthy t) eqn:Htr; [|done].
  destruct (Py.int _ _) as [n|] eqn:Hn; [|done].
  destruct (float_add_int_inv (clock w (reads w)) n) as [(_ & ->)|(_ & ->)];
    [|done].
  intros [= <- <- <-]. by exists r, d, n.
Qed.


(** ** The Basic authentication header *)

(** C7. For every client id and secret, the header is "Basic " followed by
    a payload, and base64-decoding the payload gives back exactly
    client_id, a colon and client_secret. *)
Theorem basic_auth_header_roundtrip (self : EbayOAuthClient) :
  exists payload : string,
    _basic_auth_header self = "Basic " +:+ payload /\
    bytes_decode <$> Base64.b64decode (str_encode payload)
    = Some (client_id self +:+ ":" +:+ client_secret self).
Proof.
  eexists. split; [reflexivity|].
  unfold str_encode, bytes_decode.
  rewrite String.list_byte_of_string_of_list_byte.
  rewrite Base64Facts.b64decode_b64encode. cbn [fmap option_fmap option_map].
  by rewrite String.string_of_list_byte_of_string.
Qed.

(** ** [get_access_token] *)

(** C1, as the code has it. When a non-empty token is cached and the clock
    reads strictly less than cached_expiry - 60, [get_access_token] returns
    the cached token, leaves the manager as it was and posts nothing. *)
Theorem get_access_token_cache_hit int_of_str self w :
  truthy (_access_token self) = true ->
  (clock w (reads w) < _token_expiry self - 60)%Q ->
  get_access_token int_of_str self w = (Ok (_access_token self), self, tick w)
  /\ sent (tick w) = sent w.
Proof.
  intros Htok Hnow. split; [|reflexivity].
  rewrite get_access_token_cases, Htok.
  apply Qltb_lt in Hnow. by rewrite Hnow.
Qed.

Lemma get_access_token_cache_hit_witness :
  let self := with_cache fixture (PStr "cached_token") 4600 in
  let w := world 1000 NoResponse in
  get_access_token plain_int_of_str self w = (Ok (PStr "cached_token"), self, tick w)
  /\ sent (tick w) = sent w.
Proof.
  intros self w.
  apply (get_access_token_cache_hit plain_int_of_str self w);
    reflexivity.
Defined.

(** C1 as stated fails at the margin: with exactly 60 seconds left the
    cached token is not served; a request goes out and the new token is
    returned. The state is the one left by a first refresh at time 1000. *)
Lemma cache_hit_at_margin_counterexample :
  let self := with_cache fixture (PStr "tok1") 8200 in
  let w := world 8140 (token_reply "tok2" 7200) in
  let run := get_access_token plain_int_of_str self w in
  reachable plain_int_of_str self /\
  _access_token self = PStr "tok1" /\
  (60 <= _token_expiry self - clock w (reads w))%Q /\
  returned run = Ok (PStr "tok2") /\
  returned run <> Ok (_access_token self) /\
  sent (world_after run) = sent w ++ [refresh_request self].
Proof.
  intros self w run. repeat split.
  - apply (reach_get plain_int_of_str fixture
             (world 1000 (token_reply "tok1" 7200)) (Ok (PStr "tok1")) self
             (tick (posted (world 1000 (token_reply "tok1" 7200))
                      (refresh_request fixture)))).
    + by apply (reach_init _ "test_client_id" "test_client_secret"
                  "test_refresh_token" "sandbox").
    + vm_compute. reflexivity.
  - vm_compute. discriminate.
  - vm_compute. discriminate.
Qed.

(** C3. When no token is cached, or the clock reads cached_expiry - 60 or
    more, [get_access_token] is one refresh exchange: one POST, to the token
    endpoint, and the exchange's outcome is the call's outcome, so a token
    it returns is the response's access_token. *)
Theorem get_access_token_cache_miss int_of_str self w :
  _access_token self = PNone
  \/ (_token_expiry self - 60 <= clock w (reads w))%Q ->
  let w0 := if truthy (_access_token self) then tick w else w in
  let run := get_access_token int_of_str self w in
  run = _refresh_access_token int_of_str self w0 /\
  sent (world_after run) = sent w ++ [refresh_request self] /\
  url (refresh_request self) = token_url self /\
  forall tok, returned run = Ok tok ->
    exists r d,
      server w (sent w) (refresh_request self) = Reply r /\
      json_body r = Some (PDict d) /\ d !! "access_token" = Some tok /\
      _access_token (client_after run) = tok.
Proof.
  intros Hmiss w0 run.
  assert (Hrun : run = _refresh_access_token int_of_str self w0).
  { subst run w0. rewrite get_access_token_cases.
    destruct Hmiss as [-> | Hlate]; [done|].
    destruct (truthy (_access_token self)); [|done].
    apply Qltb_ge in Hlate. by rewrite Hlate. }
  assert (Hw0 : server w0 = server w /\ sent w0 = sent w).
  { subst w0. by destruct (truthy _). }
  destruct Hw0 as (Hsrv & Hsent).
  rewrite Hrun, refresh_cases, Hsrv, Hsent.
  repeat split.
  - by rewrite exchange_sent, Hsent.
  - intros tok Hok.
    destruct (exchange int_of_str self w0 _) as [[res self'] w'] eqn:Hex.
    cbn in Hok. subst res.
    apply exchange_ok in Hex as (r & d & n & Ho & _ & Hb & Ht & _ & _ & -> & _).
    by exists r, d.
Qed.

Lemma get_access_token_cache_miss_witness :
  let w := world 1000 (token_reply "tok1" 7200) in
  let run := get_access_token plain_int_of_str fixture w in
  sent (world_after run) = [refresh_request fixture] /\
  returned run = Ok (PStr "tok1").
Proof.
  intros w run.
  destruct (get_access_token_cache_miss plain_int_of_str fixture w
              (or_introl eq_refl)) as (_ & Hsent & _ & _).
  split; [exact Hsent | reflexivity].
Defined.

(** C4. Whenever [get_access_token] goes to the server, a reply outside
    2xx raises [HTTPStatusError] with that response, a 2xx reply whose JSON
    object has no access_token raises [RuntimeError] with the body, and in
    both cases the manager, cache included, is exactly as before the call. *)
Theorem get_access_token_error_atomic int_of_str self w r :
  truthy (_access_token self) = false
  \/ (_token_expiry self - 60 <= clock w (reads w))%Q ->
  server w (sent w) (refresh_request self) = Reply r ->
  let run := get_access_token int_of_str self w in
  (is_success r = false ->
     returned run = Raise (HTTPStatusError r) /\ client_after run = self) /\
  (forall d,
     is_success r = true -> json_body r = Some (PDict d) ->
     d !! "access_token" = None ->
     returned run = Raise (RuntimeError (PDict d)) /\ client_after run = self).
Proof.
  intros Hmiss Hsrv run.
  assert (Hrun : exists w0, server w0 = server w /\ sent w0 = sent w /\
                   run = _refresh_access_token int_of_str self w0).
  { subst run. rewrite get_access_token_cases.
    destruct Hmiss as [-> | Hlate]; [by exists w|].
    destruct (truthy (_access_token self)); [|by exists w].
    apply Qltb_ge in Hlate. rewrite Hlate. by exists (tick w). }
  destruct Hrun as (w0 & Hs & Hsent & ->).
  rewrite refresh_cases, Hs, Hsent, Hsrv. unfold exchange. split.
  - by intros ->.
  - intros d -> -> ->. done.
Qed.

Lemma get_access_token_error_atomic_witness :
  let self := with_cache fixture (PStr "old_tok") 900 in
  let w := world 1000 (status_reply 401) in
  let run := get_access_token plain_int_of_str self w in
  returned run
  = Raise (HTTPStatusError {| status_code := 401; json_body := None |})
  /\ client_after run = self.
Proof.
  intros self w run.
  refine (proj1 (get_access_token_error_atomic plain_int_of_str self w
                   {| status_code := 401; json_body := None |} _ eq_refl)
            eq_refl).
  right. vm_compute. discriminate.
Defined.

(** ** [force_refresh] *)

(** C5. Whatever the cache holds, [force_refresh] posts exactly one request,
    and when it returns a token, that token is the response's access_token,
    it is the cached token, and the cached expiry is the clock reading plus
    the response's expires_in (7200 when absent). *)
Theorem force_refresh_one_exchange int_of_str self w :
  let run := force_refresh int_of_str self w in
  sent (world_after run) = sent w ++ [refresh_request self] /\
  forall tok, returned run = Ok tok ->
    exists r d n,
      server w (sent w) (refresh_request self) = Reply r /\
      json_body r = Some (PDict d) /\ d !! "access_token" = Some tok /\
      Py.int int_of_str (expires_in_of d) = Ok n /\
      _access_token (client_after run) = tok /\
      _token_expiry (client_after run) = (clock w (reads w) + inject_Z n)%Q.
Proof.
  intros run. subst run.
  rewrite force_refresh_cases, refresh_cases, refresh_request_with_cache.
  split; [exact (exchange_sent _ (with_cache self PNone 0) _ _)|].
  intros tok Hok.
  destruct (exchange _ _ _ _) as [[res self'] w'] eqn:Hex.
  cbn in Hok. subst res.
  apply exchange_ok in Hex
    as (r & d & n & Ho & _ & Hb & Ht & _ & Hn & -> & _).
  by exists r, d, n.
Qed.

Lemma force_refresh_one_exchange_witness :
  let self := with_cache fixture (PStr "cached") 10999 in
  let w := world 1000 (token_reply "forced_token" 7200) in
  let run := force_refresh plain_int_of_str self w in
  sent (world_after run) = [refresh_request self] /\
  exists r d n,
    server w (sent w) (refresh_request self) = Reply r /\
    json_body r = Some (PDict d) /\
    d !! "access_token" = Some (PStr "forced_token") /\
    Py.int plain_int_of_str (expires_in_of d) = Ok n /\
    _access_token (client_after run) = PStr "forced_token" /\
    _token_expiry (client_after run) = (clock w (reads w) + inject_Z n)%Q.
Proof.
  intros self w run.
  destruct (force_refresh_one_exchange plain_int_of_str self w) as (Hs & Hok).
  split; [exact Hs | exact (Hok (PStr "forced_token") eq_refl)].
Defined.

(** C9. [force_refresh] drops the cache before it goes to the server: when
    the reply is outside 2xx, or is a 2xx JSON object without access_token,
    the error reaches the caller and the manager is left with no token and
    expiry 0, whatever it held before. *)
Theorem force_refresh_failure_clears_cache int_of_str self w r :
  server w (sent w) (refresh_request self) = Reply r ->
  let run := force_refresh int_of_str self w in
  (is_success r = false ->
     returned run = Raise (HTTPStatusError r) /\
     client_after run = with_cache self PNone 0) /\
  (forall d,
     is_success r = true -> json_body r = Some (PDict d) ->
     d !! "access_token" = None ->
     returned run = Raise (RuntimeError (PDict d)) /\
     client_after run = with_cache self PNone 0).
Proof.
  intros Hsrv run. subst run.
  rewrite force_refresh_cases, refresh_cases, refresh_request_with_cache.
  rewrite Hsrv. unfold exchange. split.
  - by intros ->.
  - intros d -> -> ->. done.
Qed.

Lemma force_refresh_failure_clears_cache_witness :
  let self := with_cache fixture (PStr "still_valid") 9999 in
  let w := world 1000 (status_reply 401) in
  let run := force_refresh plain_int_of_str self w in
  returned run
  = Raise (HTTPStatusError {| status_code := 401; json_body := None |})
  /\ _access_token (client_after run) = PNone
  /\ _token_expiry (client_after run) = 0%Q.
Proof.
  intros self w run.
  destruct (proj1 (force_refresh_failure_clears_cache plain_int_of_str self w
                     {| status_code := 401; json_body := None |} eq_refl)
              eq_refl) as (Hr & Hc).
  split; [exact Hr|]. unfold run. rewrite Hc. split; reflexivity.
Defined.

(** ** The refresh exchange *)

(** C6, as the code has it. For a 2xx reply whose JSON object carries a
    non-empty access_token and an expires_in that is absent or that [int]
    converts to an integer within the float range, the exchange caches that
    token, sets the expiry to the clock reading plus the converted
    expires_in (7200 when absent) and returns the token. *)
Theorem refresh_exchange_postcondition int_of_str self w r d tok n :
  server w (sent w) (refresh_request self) = Reply r ->
  is_success r = true ->
  json_body r = Some (PDict d) ->
  d !! "access_token" = Some tok ->
  truthy tok = true ->
  Py.int int_of_str (expires_in_of d) = Ok n ->
  Z.abs n < float_limit ->
  _refresh_access_token int_of_str self w
  = (Ok tok, with_cache self tok (clock w (reads w) + inject_Z n)%Q,
     tick (posted w (refresh_request self)))
  /\ (d !! "expires_in" = None -> n = 7200).
Proof.
  intros Hsrv Hs Hb Ht Htr Hn Hrange. split.
  - rewrite refresh_cases, Hsrv. unfold exchange.
    rewrite Hs, Hb, Ht; cbn [default id]; rewrite Htr, Hn.
    by rewrite float_add_int_ok.
  - intros Habs. unfold expires_in_of in Hn. rewrite Habs in Hn.
    cbn [default id Py.int] in Hn. congruence.
Qed.

Lemma refresh_exchange_postcondition_witness :
  let w := world 1000 (ok_body [("access_token", PStr "tok1")]) in
  _refresh_access_token plain_int_of_str fixture w
  = (Ok (PStr "tok1"), with_cache fixture (PStr "tok1") (1000 + inject_Z 7200)%Q,
     tick (posted w (refresh_request fixture))).
Proof.
  intros w.
  refine (proj1 (refresh_exchange_postcondition plain_int_of_str fixture w
                   {| status_code := 200;
                      json_body := Some (PDict (list_to_map
                                     [("access_token", PStr "tok1")])) |}
                   (list_to_map [("access_token", PStr "tok1")])
                   (PStr "tok1") 7200 _ _ _ _ _ _ _)); reflexivity.
Defined.

(** C6 as stated fails on 2xx bodies that do contain an access_token:
    with "expires_in": null the exchange raises [TypeError] and the expiry
    stays as it was; with an empty access_token it raises [RuntimeError]
    and nothing is cached; with expires_in = 10^400 the sum raises
    [OverflowError], the token cached and the expiry as it was. *)
Lemma refresh_postcondition_counterexample :
  let w1 := world 1000 (ok_body [("access_token", PStr "tok1");
                                 ("expires_in", PNone)]) in
  let run1 := _refresh_access_token plain_int_of_str fixture w1 in
  let w2 := world 1000 (ok_body [("access_token", PStr "")]) in
  let run2 := _refresh_access_token plain_int_of_str fixture w2 in
  let w3 := world 1000 (ok_body [("access_token", PStr "tok1");
                                 ("expires_in", PInt (10 ^ 400))]) in
  let run3 := _refresh_access_token plain_int_of_str fixture w3 in
  (returned run1 = Raise TypeError /\
   _token_expiry (client_after run1) = 0%Q) /\
  (returned run2 <> Ok (PStr "") /\
   _access_token (client_after run2) = PNone) /\
  (returned run3 = Raise OverflowError /\
   _access_token (client_after run3) = PStr "tok1" /\
   _token_expiry (client_after run3) = 0%Q).
Proof.
  intros w1 run1 w2 run2 w3 run3.
  split; [split; reflexivity|]. split.
  - split; [|reflexivity]. vm_compute. discriminate.
  - repeat split; vm_compute; reflexivity.
Qed.

(** ** The safety margin *)

Lemma margin_after_exchange (now : Q) (n : Z) :
  (60 <= now + inject_Z n - now)%Q <-> 60 <= n.
Proof.
  rewrite (Zle_Qle 60 n). change (inject_Z 60) with 60%Q.
  split; intros H; lra.
Qed.

(** A token is cached only if it is true as a condition: every reachable
    manager holds no token or a non-empty one. *)
Lemma exchange_token_truthy int_of_str self w o :
  _access_token self = PNone \/ truthy (_access_token self) = true ->
  let self' := client_after (exchange int_of_str self w o) in
  _access_token self' = PNone \/ truthy (_access_token self') = true.
Proof.
  intros Hself. unfold exchange. destruct o as [|r]; [done|].
  destruct (is_success r); [|done].
  destruct (json_body r) as [[]|]; try done.
  destruct (truthy (default PNone (d !! "access_token"))) eqn:Htr; [|done].
  destruct (Py.int _ _) as [n|]; [|cbn; by right].
  destruct (float_add_int _ n); cbn; by right.
Qed.

Lemma reachable_token_truthy int_of_str self :
  reachable int_of_str self ->
  _access_token self = PNone \/ truthy (_access_token self) = true.
Proof.
  induction 1 as [cid cs rt env self Hinit
                 | self w r self' w' Hreach IH Hrun
                 | self w r self' w' Hreach IH Hrun].
  - left. unfold __init__ in Hinit.
    destruct (Config.ENVIRONMENTS !! env) as [cfg|]; [|done].
    destruct (negb _); [done|].
    destruct (cfg !! "token_url"), (cfg !! "api_base"); try done.
    by injection Hinit as <-.
  - rewrite get_access_token_cases in Hrun.
    destruct (truthy (_access_token self)) eqn:Htr.
    + destruct (Qltb _ _).
      * injection Hrun as _ <- _. by right.
      * rewrite refresh_cases in Hrun.
        pose proof (exchange_token_truthy int_of_str self (tick w)
                      (server (tick w) (sent (tick w)) (refresh_request self))
                      (or_intror Htr)) as H.
        by rewrite Hrun in H.
    + destruct IH as [Hnone|]; [|done].
      rewrite refresh_cases in Hrun.
      pose proof (exchange_token_truthy int_of_str self w
                    (server w (sent w) (refresh_request self))
                    (or_introl Hnone)) as H.
      by rewrite Hrun in H.
  - rewrite force_refresh_cases, refresh_cases in Hrun.
    pose proof (exchange_token_truthy int_of_str (with_cache self PNone 0) w
                  (server w (sent w)
                     (refresh_request (with_cache self PNone 0)))
                  (or_introl eq_refl)) as H.
    by rewrite Hrun in H.
Qed.

(** C2, as the code has it. A token returned by [get_access_token] or
    [force_refresh] is the cached one and is non-empty. Either it was served
    from the cache, and then more than 60 seconds remain to the cached
    expiry; or it comes from an exchange, and then the cached expiry is the
    clock reading plus the converted expires_in, so that 60 seconds or more
    remain exactly when that expires_in is 60 or more. *)
Theorem returned_token_margin int_of_str self w tok self' w' :
  get_access_token int_of_str self w = (Ok tok, self', w')
  \/ force_refresh int_of_str self w = (Ok tok, self', w') ->
  _access_token self' = tok /\ truthy tok = true /\
  ((self' = self /\ sent w' = sent w /\
    (60 < _token_expiry self' - last_reading w')%Q)
   \/
   (exists r d n,
      server w (sent w) (refresh_request self) = Reply r /\
      json_body r = Some (PDict d) /\
      d !! "access_token" = Some tok /\
      Py.int int_of_str (expires_in_of d) = Ok n /\
      _token_expiry self' = (last_reading w' + inject_Z n)%Q /\
      ((60 <= _token_expiry self' - last_reading w')%Q <-> 60 <= n))).
Proof.
  assert (Hex : forall s0 w0,
            server w0 = server w -> sent w0 = sent w ->
            refresh_request s0 = refresh_request self ->
            _refresh_access_token int_of_str s0 w0 = (Ok tok, self', w') ->
            _access_token self' = tok /\ truthy tok = true /\
            exists r d n,
              server w (sent w) (refresh_request self) = Reply r /\
              json_body r = Some (PDict d) /\
              d !! "access_token" = Some tok /\
              Py.int int_of_str (expires_in_of d) = Ok n /\
              _token_expiry self' = (last_reading w' + inject_Z n)%Q /\
              ((60 <= _token_expiry self' - last_reading w')%Q <-> 60 <= n)).
  { intros s0 w0 Hsrv Hsent Hreq Hrun.
    rewrite refresh_cases, Hsrv, Hsent, Hreq in Hrun.
    apply exchange_ok in Hrun
      as (r & d & n & Ho & _ & Hb & Ht & Htr & Hn & -> & ->).
    repeat split; [done|].
    exists r, d, n. repeat split; try done;
      cbn [with_cache _token_expiry]; unfold last_reading; cbn;
      apply margin_after_exchange. }
  intros [Hrun | Hrun].
  - rewrite get_access_token_cases in Hrun.
    destruct (truthy (_access_token self)) eqn:Htr.
    + destruct (Qltb _ _) eqn:Hlt.
      * injection Hrun as <- <- <-. repeat split; [done|]. left.
        repeat split. apply Qltb_lt in Hlt.
        unfold last_reading; cbn. lra.
      * destruct (Hex self (tick w)) as (H1 & H2 & H3); by eauto.
    + destruct (Hex self w) as (H1 & H2 & H3); by eauto.
  - rewrite force_refresh_cases in Hrun.
    destruct (Hex (with_cache self PNone 0) w) as (H1 & H2 & H3); by eauto.
Qed.

Lemma returned_token_margin_witness :
  let w := world 1000 (token_reply "tok1" 7200) in
  let self' := with_cache fixture (PStr "tok1") 8200 in
  let w' := tick (posted w (refresh_request fixture)) in
  _access_token self' = PStr "tok1" /\ truthy (PStr "tok1") = true /\
  ((self' = fixture /\ sent w' = sent w /\
    (60 < _token_expiry self' - last_reading w')%Q)
   \/
   (exists r d n,
      server w (sent w) (refresh_request fixture) = Reply r /\
      json_body r = Some (PDict d) /\
      d !! "access_token" = Some (PStr "tok1") /\
      Py.int plain_int_of_str (expires_in_of d) = Ok n /\
      _token_expiry self' = (last_reading w' + inject_Z n)%Q /\
      ((60 <= _token_expiry self' - last_reading w')%Q <-> 60 <= n))).
Proof.
  intros w self' w'.
  exact (returned_token_margin plain_int_of_str fixture w (PStr "tok1")
           self' w' (or_introl eq_refl)).
Defined.

(** C2 as stated fails after an exchange: a reply with expires_in = 30 gives
    a token that both methods return with 30 seconds, less than 60, to the
    cached expiry. *)
Lemma safety_margin_counterexample :
  let w := world 1000 (token_reply "tok1" 30) in
  let run1 := get_access_token plain_int_of_str fixture w in
  let run2 := force_refresh plain_int_of_str fixture w in
  reachable plain_int_of_str fixture /\
  (returned run1 = Ok (PStr "tok1") /\
   (_token_expiry (client_after run1) - last_reading (world_after run1)
    < 60)%Q) /\
  (returned run2 = Ok (PStr "tok1") /\
   (_token_expiry (client_after run2) - last_reading (world_after run2)
    < 60)%Q).
Proof.
  intros w run1 run2. split; [|split; split; reflexivity].
  by apply (reach_init _ "test_client_id" "test_client_secret"
              "test_refresh_token" "sandbox").
Qed.

(** ** Construction *)

Lemma unknown_environment env :
  env <> "sandbox" -> env <> "production" ->
  Config.ENVIRONMENTS !! env = None.
Proof.
  intros Hs Hp. unfold Config.ENVIRONMENTS.
  rewrite !lookup_insert_ne by done. apply lookup_empty.
Qed.

(** C8. Construction for "sandbox" and for "production" gives a manager
    with that environment's token endpoint and API base and an empty
    cache; for every other name construction itself raises [ValueError],
    so no manager exists on which a first use could fail. *)
Theorem environment_resolution cid cs rt env :
  (env = "sandbox" ->
   __init__ cid cs rt env
   = Ok {| client_id := cid; client_secret := cs; refresh_token := rt;
           environment := "sandbox";
           token_url := "https://api.sandbox.ebay.com/identity/v1/oauth2/token";
           api_base := "https://api.sandbox.ebay.com";
           _access_token := PNone; _token_expiry := 0 |}) /\
  (env = "production" ->
   __init__ cid cs rt env
   = Ok {| client_id := cid; client_secret := cs; refresh_token := rt;
           environment := "production";
           token_url := "https://api.ebay.com/identity/v1/oauth2/token";
           api_base := "https://api.ebay.com";
           _access_token := PNone; _token_expiry := 0 |}) /\
  (env <> "sandbox" -> env <> "production" ->
   __init__ cid cs rt env
   = Raise (ValueError ("Unknown environment: " +:+ env
                        +:+ ". Use 'sandbox' or 'production'."))).
Proof.
  repeat split.
  - by intros ->.
  - by intros ->.
  - intros Hs Hp. unfold __init__. by rewrite unknown_environment.
Qed.

Lemma environment_resolution_witness :
  __init__ "id" "secret" "token" "invalid"
  = Raise (ValueError
             "Unknown environment: invalid. Use 'sandbox' or 'production'.").
Proof.
  refine (proj2 (proj2 (environment_resolution "id" "secret" "token"
                          "invalid")) _ _); discriminate.
Defined.

(** ** What the methods leave alone *)

Lemma same_config_refl self : same_config self self.
Proof. by repeat split. Qed.

Lemma same_config_trans a b c :
  same_config a b -> same_config b c -> same_config a c.
Proof.
  unfold same_config. intros (?&?&?&?&?&?) (?&?&?&?&?&?).
  repeat split; congruence.
Qed.

Lemma keeps_unchanged {A} (m : M A) :
  (forall self w, client_after (m self w) = self) -> keeps_config m.
Proof. intros H self w. rewrite H. apply same_config_refl. Qed.

Lemma keeps_bind {A B} (m : M A) (k : A -> M B) :
  keeps_config m -> (forall a, keeps_config (k a)) -> keeps_config (bind m k).
Proof.
  intros Hm Hk self w. unfold bind. specialize (Hm self w).
  destruct (m self w) as [[[a|e] self1] w1]; cbn in Hm |- *; [|done].
  eapply same_config_trans; [exact Hm | apply Hk].
Qed.

Lemma keeps_ret {A} (a : A) : keeps_config (ret a).
Proof. by apply keeps_unchanged. Qed.

Lemma keeps_raise {A} e : keeps_config (@raise A e).
Proof. by apply keeps_unchanged. Qed.

Lemma keeps_lift {A} (r : result A) : keeps_config (lift r).
Proof. by apply keeps_unchanged. Qed.

Lemma keeps_get_self : keeps_config get_self.
Proof. by apply keeps_unchanged. Qed.

Lemma keeps_time_time : keeps_config time_time.
Proof. by apply keeps_unchanged. Qed.

Lemma keeps_client_post req : keeps_config (client_post req).
Proof.
  apply keeps_unchanged. intros self w. unfold client_post.
  by destruct (server w (sent w) req).
Qed.

Lemma keeps_raise_for_status r : keeps_config (raise_for_status r).
Proof.
  unfold raise_for_status.
  destruct (is_success r); [apply keeps_ret | apply keeps_raise].
Qed.

Lemma keeps_response_json r : keeps_config (response_json r).
Proof.
  unfold response_json.
  destruct (json_body r); [apply keeps_ret | apply keeps_raise].
Qed.

Lemma keeps_py_get v key dflt : keeps_config (py_get v key dflt).
Proof.
  unfold py_get. destruct v; try apply keeps_raise.
  destruct (d !! key); apply keeps_ret.
Qed.

Lemma keeps_set_access_token v : keeps_config (set_access_token v).
Proof. intros self w. by repeat split. Qed.

Lemma keeps_set_token_expiry t : keeps_config (set_token_expiry t).
Proof. intros self w. by repeat split. Qed.

Create HintDb frame.
#[local] Hint Resolve keeps_ret keeps_raise keeps_lift keeps_get_self
  keeps_time_time keeps_client_post keeps_raise_for_status
  keeps_response_json keeps_py_get keeps_set_access_token
  keeps_set_token_expiry : frame.

Ltac frame_step :=
  match goal with
  | |- keeps_config (bind _ _) => apply keeps_bind; [|intros ?]
  | |- keeps_config (if ?b then _ else _) => destruct b
  | |- keeps_config _ => solve [auto with frame]
  end.

Lemma keeps_refresh_access_token int_of_str :
  keeps_config (_refresh_access_token int_of_str).
Proof. unfold _refresh_access_token. repeat frame_step. Qed.

Lemma keeps_get_access_token int_of_str :
  keeps_config (get_access_token int_of_str).
Proof.
  pose proof (keeps_refresh_access_token int_of_str).
  unfold get_access_token. repeat frame_step; assumption.
Qed.

Lemma keeps_force_refresh int_of_str :
  keeps_config (force_refresh int_of_str).
Proof.
  pose proof (keeps_refresh_access_token int_of_str).
  unfold force_refresh. repeat frame_step; assumption.
Qed.

(** C10. Whatever the server answers, and whether they return or raise,
    [get_access_token] and [force_refresh] leave client_id, client_secret,
    refresh_token, environment, token_url and api_base as they were; in
    particular no field of the response replaces the stored refresh token. *)
Theorem methods_keep_config int_of_str self w :
  same_config self (client_after (get_access_token int_of_str self w)) /\
  same_config self (client_after (force_refresh int_of_str self w)).
Proof.
  split; [apply keeps_get_access_token | apply keeps_force_refresh].
Qed.

(** * Further properties of [auth.py] *)

(** X1. When [int(expires_in)] raises, the exchange has already assigned the
    new token: the error reaches the caller with the new token cached
    against the old expiry, and the clock read once. *)
Theorem refresh_bad_expires_in_half_updates int_of_str self w r d tok e :
  server w (sent w) (refresh_request self) = Reply r ->
  is_success r = true ->
  json_body r = Some (PDict d) ->
  d !! "access_token" = Some tok ->
  truthy tok = true ->
  Py.int int_of_str (expires_in_of d) = Raise e ->
  _refresh_access_token int_of_str self w
  = (Raise e, with_cache self tok (_token_expiry self),
     tick (posted w (refresh_request self))).
Proof.
  intros Hsrv Hs Hb Ht Htr He.
  rewrite refresh_cases, Hsrv. unfold exchange.
  by rewrite Hs, Hb, Ht; cbn [default id]; rewrite Htr, He.
Qed.

Lemma refresh_bad_expires_in_half_updates_witness :
  let self := with_cache fixture (PStr "old_tok") 500 in
  let w := world 1000 (ok_body [("access_token", PStr "new_tok");
                                ("expires_in", PList [])]) in
  _refresh_access_token plain_int_of_str self w
  = (Raise TypeError, with_cache fixture (PStr "new_tok") 500,
     tick (posted w (refresh_request self))).
Proof.
  intros self w.
  refine (refresh_bad_expires_in_half_updates plain_int_of_str self w
            {| status_code := 200;
               json_body := Some (PDict (list_to_map
                              [("access_token", PStr "new_tok");
                               ("expires_in", PList [])])) |}
            (list_to_map [("access_token", PStr "new_tok");
                          ("expires_in", PList [])])
            (PStr "new_tok") TypeError _ _ _ _ _ _); reflexivity.
Defined.

(** The exchange read backwards on a raise: the manager is as before,
    unless the raise is that of [int(expires_in)] or of the sum. *)
Lemma exchange_raise int_of_str self w o e self' w' :
  exchange int_of_str self w o = (Raise e, self', w') ->
  self' = self
  \/ exists r d tok,
       o = Reply r /\ json_body r = Some (PDict d) /\
       d !! "access_token" = Some tok /\ truthy tok = true /\
       (Py.int int_of_str (expires_in_of d) = Raise e
        \/ exists n, Py.int int_of_str (expires_in_of d) = Ok n /\
                     float_limit <= Z.abs n /\ e = OverflowError) /\
       self' = with_cache self tok (_token_expiry self).
Proof.
  unfold exchange. destruct o as [|r]; [intros [= _ <- _]; by left|].
  destruct (is_success r); [|intros [= _ <- _]; by left].
  destruct (json_body r) as [[]|] eqn:Hb;
    try (intros [= _ <- _]; by left).
  destruct (d !! "access_token") as [t|] eqn:Ht; cbn [default id];
    [|intros [= _ <- _]; by left].
  destruct (truthy t) eqn:Htr; [|intros [= _ <- _]; by left].
  destruct (Py.int _ _) as [n|e0] eqn:Hn.
  - destruct (float_add_int_inv (clock w (reads w)) n)
      as [(_ & ->)|(Hbig & ->)]; [done|].
    intros [= <- <- _]. right. exists r, d, t. repeat split; try done.
    right. by exists n.
  - intros [= <- <- _]. right. exists r, d, t. repeat split; try done.
    by left.
Qed.

(** X2. A call of [get_access_token] that raises leaves the manager exactly as
    it was (no response, status outside 2xx, body that is not JSON or not
    an object, access_token missing or empty), with two exceptions: when the
    raise comes from [int(expires_in)], or is the [OverflowError] of adding
    an expires_in beyond the float range to the clock reading, the new token
    is already cached against the old expiry. *)
Theorem get_access_token_raise_state int_of_str self w e self' w' :
  get_access_token int_of_str self w = (Raise e, self', w') ->
  self' = self
  \/ exists r d tok,
       server w (sent w) (refresh_request self) = Reply r /\
       json_body r = Some (PDict d) /\
       d !! "access_token" = Some tok /\ truthy tok = true /\
       (Py.int int_of_str (expires_in_of d) = Raise e
        \/ exists n, Py.int int_of_str (expires_in_of d) = Ok n /\
                     float_limit <= Z.abs n /\ e = OverflowError) /\
       self' = with_cache self tok (_token_expiry self).
Proof.
  rewrite get_access_token_cases.
  destruct (truthy (_access_token self)).
  - destruct (Qltb _ _); [done|].
    rewrite refresh_cases. intros H. apply exchange_raise in H. exact H.
  - rewrite refresh_cases. intros H. apply exchange_raise in H. exact H.
Qed.

Lemma get_access_token_raise_state_witness :
  let self := with_cache fixture (PStr "old_tok") 900 in
  let w := world 1000 (ok_body [("access_token", PStr "new_tok");
                                ("expires_in", PInt (10 ^ 400))]) in
  let self' := with_cache fixture (PStr "new_tok") 900 in
  self' = self
  \/ exists r d tok,
       server w (sent w) (refresh_request self) = Reply r /\
       json_body r = Some (PDict d) /\
       d !! "access_token" = Some tok /\ truthy tok = true /\
       (Py.int plain_int_of_str (expires_in_of d) = Raise OverflowError
        \/ exists n, Py.int plain_int_of_str (expires_in_of d) = Ok n /\
                     float_limit <= Z.abs n /\
                     OverflowError = OverflowError) /\
       self' = with_cache self tok (_token_expiry self).
Proof.
  intros self w self'.
  refine (get_access_token_raise_state plain_int_of_str self w OverflowError
            self' (tick (posted (tick w) (refresh_request self))) _).
  vm_compute. reflexivity.
Defined.

(** X3. After a call of either method has returned a token, a call of
    [get_access_token] made while the clock reads less than the cached
    expiry minus 60 returns the same token, changes nothing and posts
    nothing. *)
Theorem get_access_token_again int_of_str self w tok self' w' :
  get_access_token int_of_str self w = (Ok tok, self', w')
  \/ force_refresh int_of_str self w = (Ok tok, self', w') ->
  (clock w' (reads w') < _token_expiry self' - 60)%Q ->
  get_access_token int_of_str self' w' = (Ok tok, self', tick w')
  /\ sent (tick w') = sent w'.
Proof.
  intros Hfirst Hnow.
  assert (Hcached : _access_token self' = tok /\ truthy tok = true).
  { destruct Hfirst as [Hrun | Hrun].
    - rewrite get_access_token_cases in Hrun.
      destruct (truthy (_access_token self)) eqn:Htr.
      + destruct (Qltb _ _).
        * by injection Hrun as <- <- _.
        * rewrite refresh_cases in Hrun.
          by apply exchange_ok in Hrun
            as (r & d & n & _ & _ & _ & _ & Ht & _ & -> & _).
      + rewrite refresh_cases in Hrun.
        by apply exchange_ok in Hrun
          as (r & d & n & _ & _ & _ & _ & Ht & _ & -> & _).
    - rewrite force_refresh_cases, refresh_cases in Hrun.
      by apply exchange_ok in Hrun
        as (r & d & n & _ & _ & _ & _ & Ht & _ & -> & _). }
  destruct Hcached as (Htok & Htr). split; [|reflexivity].
  rewrite get_access_token_cases, Htok, Htr.
  apply Qltb_lt in Hnow. by rewrite Hnow.
Qed.

Lemma get_access_token_again_witness :
  let w := world 1000 (token_reply "tok1" 7200) in
  let self' := with_cache fixture (PStr "tok1") 8200 in
  let w' := tick (posted w (refresh_request fixture)) in
  get_access_token plain_int_of_str self' w' = (Ok (PStr "tok1"), self', tick w')
  /\ sent (tick w') = sent w'.
Proof.
  intros w self' w'.
  apply (get_access_token_again plain_int_of_str fixture w (PStr "tok1")
           self' w' (or_introl eq_refl)).
  reflexivity.
Defined.

(** X4. [force_refresh] does not look at the cache: its outcome is the same
    whatever token and expiry were cached. On a manager whose cache is
    empty, as after construction, [get_access_token] does exactly what
    [force_refresh] does. *)
Theorem force_refresh_ignores_cache int_of_str self w :
  (forall tok expiry,
     force_refresh int_of_str (with_cache self tok expiry) w
     = force_refresh int_of_str self w) /\
  (_access_token self = PNone -> _token_expiry self = 0%Q ->
   get_access_token int_of_str self w = force_refresh int_of_str self w).
Proof.
  split; [reflexivity|].
  intros Htok Hexp.
  rewrite get_access_token_cases, force_refresh_cases, Htok. cbn [truthy].
  f_equal. destruct self. cbn in Htok, Hexp. by subst.
Qed.

Lemma force_refresh_ignores_cache_witness :
  let w := world 1000 (token_reply "tok1" 7200) in
  get_access_token plain_int_of_str fixture w
  = force_refresh plain_int_of_str fixture w.
Proof.
  intros w.
  exact (proj2 (force_refresh_ignores_cache plain_int_of_str fixture w)
           eq_refl eq_refl).
Defined.

(** X5. A call posts one request, the refresh request, or none at all; it
    posts none exactly when a non-empty token is cached and the clock reads
    less than its expiry minus 60. A failure is never followed by a second
    attempt. *)
Theorem at_most_one_request int_of_str self w :
  let run := get_access_token int_of_str self w in
  let hit := truthy (_access_token self)
             && Qltb (clock w (reads w)) (_token_expiry self - 60)%Q in
  sent (world_after run)
  = sent w ++ (if hit then [] else [refresh_request self]).
Proof.
  intros run hit. subst run hit. rewrite get_access_token_cases.
  destruct (truthy (_access_token self)); cbn [andb].
  - destruct (Qltb _ _).
    + cbn. by rewrite app_nil_r.
    + rewrite refresh_cases. by rewrite exchange_sent.
  - rewrite refresh_cases. by rewrite exchange_sent.
Qed.

(** ** The header and the credentials *)

Lemma str_encode_inj s t : str_encode s = str_encode t -> s = t.
Proof.
  unfold str_encode. intros H.
  rewrite <- (String.string_of_list_byte_of_string s),
    <- (String.string_of_list_byte_of_string t). by rewrite H.
Qed.

Lemma bytes_decode_inj a b : bytes_decode a = bytes_decode b -> a = b.
Proof.
  unfold bytes_decode. intros H.
  rewrite <- (String.list_byte_of_string_of_list_byte a),
    <- (String.list_byte_of_string_of_list_byte b). by rewrite H.
Qed.

Lemma b64encode_inj a b :
  Base64.b64encode a = Base64.b64encode b -> a = b.
Proof.
  intros H.
  pose proof (Base64Facts.b64decode_b64encode a) as Ha.
  rewrite H, Base64Facts.b64decode_b64encode in Ha. congruence.
Qed.

(** X6. The header identifies the joined string client_id:client_secret and
    nothing more: two managers have the same header exactly when their
    joined credentials are the same string. *)
Theorem basic_auth_header_inj (a b : EbayOAuthClient) :
  _basic_auth_header a = _basic_auth_header b
  <-> client_id a +:+ ":" +:+ client_secret a
      = client_id b +:+ ":" +:+ client_secret b.
Proof.
  unfold _basic_auth_header. split.
  - intros H. cbn in H. injection H as H.
    by apply str_encode_inj, b64encode_inj, bytes_decode_inj.
  - by intros ->.
Qed.

(** So a colon inside the client id is not told apart from the separator. *)
Example basic_auth_header_colon :
  _basic_auth_header (with_cache
    {| client_id := "a:b"; client_secret := "c"; refresh_token := "";
       environment := "sandbox"; token_url := ""; api_base := "";
       _access_token := PNone; _token_expiry := 0 |} PNone 0)
  = _basic_auth_header (with_cache
    {| client_id := "a"; client_secret := "b:c"; refresh_token := "";
       environment := "sandbox"; token_url := ""; api_base := "";
       _access_token := PNone; _token_expiry := 0 |} PNone 0).
Proof. reflexivity. Qed.

(** * [cli.py] *)

Module CliFacts.
Import Cli.

(** X7. [_exchange_code_for_tokens] indexes the table: for a name other than
    sandbox and production it raises [KeyError] and posts nothing. *)
Theorem exchange_code_unknown_environment code env cid cs runame w :
  env <> "sandbox" -> env <> "production" ->
  _exchange_code_for_tokens code env cid cs runame w = (Raise (KeyError env), w).
Proof.
  intros Hs Hp. unfold _exchange_code_for_tokens.
  by rewrite unknown_environment.
Qed.

Lemma exchange_code_unknown_environment_witness :
  let w := world 0 NoResponse in
  _exchange_code_for_tokens "code" "staging" "id" "secret" "runame" w
  = (Raise (KeyError "staging"), w).
Proof.
  intros w.
  apply (exchange_code_unknown_environment "code" "staging" "id" "secret"
           "runame" w); discriminate.
Defined.

Lemma init_ok cid cs rt env c :
  __init__ cid cs rt env = Ok c ->
  exists cfg,
    Config.ENVIRONMENTS !! env = Some cfg /\
    cfg !! "token_url" = Some (token_url c) /\
    client_id c = cid /\ client_secret c = cs.
Proof.
  unfold __init__. destruct (Config.ENVIRONMENTS !! env) as [cfg|]; [|done].
  destruct (negb _); [done|].
  destruct (cfg !! "token_url") as [tu|] eqn:Htu; [|done].
  destruct (cfg !! "api_base"); [|done].
  intros [= <-]. by exists cfg.
Qed.

(** X8. For an environment and credentials with which a manager can be
    constructed, the code exchange posts exactly one request: to the
    manager's token endpoint, with the very headers of the manager's
    refresh request, and with grant_type authorization_code, the code and
    the redirect name. On a 2xx reply with a JSON body it returns that
    body as it is, whatever it holds. *)
Theorem exchange_code_request code env cid cs rt runame w c :
  __init__ cid cs rt env = Ok c ->
  let run := _exchange_code_for_tokens code env cid cs runame w in
  sent (snd run) = sent w ++ [code_request c code runame] /\
  forall r v,
    server w (sent w) (code_request c code runame) = Reply r ->
    is_success r = true -> json_body r = Some v ->
    fst run = Ok v.
Proof.
  intros Hinit run. subst run.
  apply init_ok in Hinit as (cfg & Hcfg & Htu & Hid & Hcs).
  unfold _exchange_code_for_tokens. rewrite Hcfg, Htu.
  assert (Hreq : forall req, req = code_request c code runame ->
            let out :=
              match server w (sent w) req with
              | NoResponse => (Raise RequestError, posted w req)
              | Reply response =>
                  if is_success response then
                    match json_body response with
                    | Some v => (Ok v, posted w req)
                    | None => (Raise JSONDecodeError, posted w req)
                    end
                  else (Raise (HTTPStatusError response), posted w req)
              end in
            sent (snd out) = sent w ++ [code_request c code runame] /\
            forall r v,
              server w (sent w) (code_request c code runame) = Reply r ->
              is_success r = true -> json_body r = Some v ->
              fst out = Ok v).
  { intros req ->. cbn zeta. split.
    - destruct (server w (sent w) _) as [|r]; [done|].
      destruct (is_success r); [|done]. by destruct (json_body r).
    - intros r v -> -> ->. done. }
  apply Hreq. unfold code_request, refresh_request, _basic_auth_header.
  cbn [headers]. by rewrite Hid, Hcs.
Qed.

Lemma exchange_code_request_witness :
  let w := world 0 (ok_body [("refresh_token", PStr "rt1")]) in
  let run := _exchange_code_for_tokens "code1" "sandbox" "test_client_id"
               "test_client_secret" "runame" w in
  sent (snd run) = sent w ++ [code_request fixture "code1" "runame"] /\
  fst run = Ok (PDict (list_to_map [("refresh_token", PStr "rt1")])).
Proof.
  intros w run.
  destruct (exchange_code_request "code1" "sandbox" "test_client_id"
              "test_client_secret" "test_refresh_token" "runame" w fixture
              eq_refl) as (Hs & Hv).
  split; [exact Hs|].
  exact (Hv _ _ eq_refl eq_refl eq_refl).
Defined.

End CliFacts.

(** * [server.py] *)

Module ServerFacts.
Import Server.

(** ** The port search *)

Lemma first_port_spec (f : Z -> bool) (a : Z) (n s : nat) (p : Z) :
  first_port f (map (fun i => a + Z.of_nat i) (seq s n)) = Some p
  <-> (a + Z.of_nat s <= p < a + Z.of_nat s + Z.of_nat n /\ f p = true /\
       forall q, a + Z.of_nat s <= q < p -> f q = false).
Proof.
  revert s. induction n as [|n IH]; intros s; cbn [seq map first_port].
  - split; [done | lia].
  - destruct (f (a + Z.of_nat s)) eqn:Hf.
    + split.
      * intros [= <-]. repeat split; [lia | lia | done | lia].
      * intros (Hr & Hp & Hq). f_equal.
        destruct (Z.eq_dec p (a + Z.of_nat s)) as [|Hne]; [done|].
        rewrite Hq in Hf by lia. done.
    + rewrite IH. split.
      * intros (Hr & Hp & Hq). repeat split; [lia | lia | done |].
        intros q Hq'.
        destruct (Z.eq_dec q (a + Z.of_nat s)) as [->|Hne]; [done|].
        apply Hq. lia.
      * intros (Hr & Hp & Hq).
        assert (p <> a + Z.of_nat s) by congruence.
        repeat split; [lia | lia | done |].
        intros q Hq'. apply Hq. lia.
Qed.

Lemma first_port_none (f : Z -> bool) (a : Z) (n s : nat) :
  first_port f (map (fun i => a + Z.of_nat i) (seq s n)) = None
  <-> (forall q, a + Z.of_nat s <= q < a + Z.of_nat s + Z.of_nat n ->
                 f q = false).
Proof.
  revert s. induction n as [|n IH]; intros s; cbn [seq map first_port].
  - split; [lia | done].
  - destruct (f (a + Z.of_nat s)) eqn:Hf.
    + split; [done|]. intros H. rewrite H in Hf by lia. done.
    + rewrite IH. split.
      * intros H q Hq.
        destruct (Z.eq_dec q (a + Z.of_nat s)) as [->|Hne]; [done|].
        apply H. lia.
      * intros H q Hq. apply H. lia.
Qed.

(** X9. [_find_available_port] returns a port exactly when it is the lowest
    port of 8880..8899, both ends included, that can be bound. *)
Theorem find_available_port_lowest (can_bind : Z -> bool) (p : Z) :
  _find_available_port can_bind = Ok p
  <-> (8880 <= p <= 8899 /\ can_bind p = true /\
       forall q, 8880 <= q < p -> can_bind q = false).
Proof.
  unfold _find_available_port, CALLBACK_PORT_RANGE, py_range.
  change (Z.to_nat (8899 + 1 - 8880)) with 20%nat.
  pose proof (first_port_spec can_bind 8880 20 0 p) as H.
  destruct (first_port can_bind _) as [p'|].
  - split.
    + intros [= ->]. destruct H as (H & _).
      destruct (H eq_refl) as (Hr & Hp & Hq).
      repeat split; [lia | lia | done |]. intros q Hq'. apply Hq. lia.
    + intros (Hr & Hp & Hq). f_equal.
      assert (Some p' = Some p) as [= ->]; [|done].
      apply H. repeat split; [lia | lia | done |].
      intros q Hq'. apply Hq. lia.
  - split; [done|]. intros (Hr & Hp & Hq).
    assert (@None Z = Some p); [|done].
    apply H. repeat split; [lia | lia | done |].
    intros q Hq'. apply Hq. lia.
Qed.

(** X10. [_find_available_port] raises [RuntimeError] exactly when none of the
    twenty ports 8880..8899 can be bound; ports outside the range are not
    tried. *)
Theorem find_available_port_none (can_bind : Z -> bool) :
  _find_available_port can_bind
  = Raise (RuntimeError (PStr "No available port in range 8880-8899"))
  <-> (forall q, 8880 <= q <= 8899 -> can_bind q = false).
Proof.
  unfold _find_available_port, CALLBACK_PORT_RANGE, py_range.
  change (Z.to_nat (8899 + 1 - 8880)) with 20%nat.
  pose proof (first_port_none can_bind 8880 20 0) as H.
  destruct (first_port can_bind _) as [p'|].
  - split; [done|]. intros Hq.
    assert (Some p' = @None Z); [|done].
    apply H. intros q Hq'. apply Hq. lia.
  - split; [|done]. intros _ q Hq.
    destruct H as (H & _). apply (H eq_refl). lia.
Qed.

End ServerFacts.

Module ListenerFacts.
Import Server.

Section Listener.

Variable urlparse : string -> ParseResult.
Variable parse_qs : string -> gmap string (string * list string).

Local Abbreviation do_GET := (Server.do_GET urlparse parse_qs).
Local Abbreviation params_of p := (parse_qs (query (urlparse p))).
Local Abbreviation polling := (Server.polling urlparse parse_qs).
Local Abbreviation handle_request := (Server.handle_request urlparse parse_qs).
Local Abbreviation wait_for_callback :=
  (Server.wait_for_callback urlparse parse_qs).
Local Abbreviation idle := (Server.idle urlparse).

Lemma not_callback_path p :
  negb (String.eqb (path (urlparse p)) "/callback") = true
  <-> path (urlparse p) <> "/callback".
Proof. rewrite negb_true_iff. apply String.eqb_neq. Qed.

(** The handler never touches the nonce it expects nor the socket. *)
Lemma do_GET_keeps p srv :
  expected_nonce (snd (do_GET p srv)) = expected_nonce srv /\
  closed (snd (do_GET p srv)) = closed srv.
Proof.
  unfold Server.do_GET. destruct (negb (String.eqb _ _)); [done|].
  destruct (negb (bool_decide _)); [done|].
  destruct (nonblank (first_value _ "error")); [done|].
  by destruct (negb (nonblank _)).
Qed.

(** A result appears only through the last branch of the handler. *)
Lemma do_GET_result_inv p srv b :
  callback_result srv = None ->
  callback_result (snd (do_GET p srv)) = Some b ->
  path (urlparse p) = "/callback" /\
  first_value (params_of p) "nonce" = Some (expected_nonce srv) /\
  refresh_token b = first_value (params_of p) "refresh_token" /\
  nonblank (refresh_token b) = true /\
  callback_done (snd (do_GET p srv)) = true.
Proof.
  intros Hnone. unfold Server.do_GET.
  destruct (String.eqb (path (urlparse p)) "/callback") eqn:Hpath;
    cbn [negb]; [|cbn; congruence].
  apply String.eqb_eq in Hpath.
  destruct (bool_decide _) eqn:Hn; cbn [negb]; [|cbn; congruence].
  apply bool_decide_eq_true in Hn.
  destruct (nonblank (first_value _ "error")); [cbn; congruence|].
  destruct (nonblank (first_value (params_of p) "refresh_token")) eqn:Hrt;
    cbn [negb]; [|cbn; congruence].
  cbn. intros [= <-]. by cbn.
Qed.


(** ** The wait *)

Lemma polling_done deadline polls srv :
  callback_done srv = true -> polling deadline polls srv = Some (false, srv).
Proof. intros H. destruct polls as [|[now a] rest]; cbn; by rewrite H. Qed.

(** Idle polls are passed over. *)
Lemma polling_idle deadline pre rest srv :
  Forall (idle deadline) pre ->
  callback_done srv = false ->
  polling deadline (pre ++ rest) srv = polling deadline rest srv.
Proof.
  intros Hpre Hdone.
  induction Hpre as [|[now a] pre (Hnow & Ha) _ IH]; [done|].
  cbn [app Server.polling]. rewrite Hdone.
  cbn in Hnow. apply Qltb_ge in Hnow. rewrite Hnow.
  replace (handle_request a srv) with srv; [exact IH|].
  destruct a as [|p|]; [done| |done].
  cbn in Ha. apply not_callback_path in Ha.
  cbn. unfold Server.do_GET. by rewrite Ha.
Qed.

(** Whatever the loop leaves as result came in through a GET for
    /callback that carried the expected nonce. *)
Lemma polling_result deadline polls srv out srv' b :
  callback_result srv = None ->
  polling deadline polls srv = Some (out, srv') ->
  callback_result srv' = Some b ->
  exists p,
    In (Get p) (map snd polls) /\
    path (urlparse p) = "/callback" /\
    first_value (params_of p) "nonce" = Some (expected_nonce srv) /\
    refresh_token b = first_value (params_of p) "refresh_token" /\
    nonblank (refresh_token b) = true.
Proof.
  revert srv. induction polls as [|[now a] rest IH]; intros srv Hnone.
  - cbn. destruct (callback_done srv); [|done].
    intros [= _ <-]. congruence.
  - cbn [Server.polling]. destruct (callback_done srv).
    { intros [= _ <-]. congruence. }
    destruct (Qltb deadline now).
    { intros [= _ <-]. congruence. }
    intros Hpoll Hres.
    assert (Hlater : forall p0,
              In (Get p0) (map snd rest) ->
              In (Get p0) (map snd ((now, a) :: rest))) by (intros; by right).
    destruct a as [|p|]; cbn [Server.handle_request] in Hpoll.
    + destruct (IH srv Hnone Hpoll Hres) as (p0 & Hin & H). eauto.
    + destruct (callback_result (snd (do_GET p srv))) as [b2|] eqn:Hb2.
      * destruct (do_GET_result_inv p srv b2 Hnone Hb2)
          as (Hpath & Hnonce & Hrt & Hnb & Hdone).
        rewrite polling_done in Hpoll by done.
        injection Hpoll as _ <-.
        assert (b2 = b) as -> by congruence.
        exists p. repeat split; try done. by left.
      * destruct (IH _ Hb2 Hpoll Hres) as (p0 & Hin & Hp & Hn & H).
        exists p0. rewrite (proj1 (do_GET_keeps p srv)) in Hn. eauto.
    + destruct (IH srv Hnone Hpoll Hres) as (p0 & Hin & H). eauto.
Qed.

(** X12. [wait_for_callback] returns a token bundle only if one of the requests
    it handled was a GET for /callback whose nonce is the expected one;
    the bundle's refresh token is that request's, and is not empty. *)
Theorem wait_returns_only_for_nonce srv timeout started polls b srv' :
  callback_result srv = None ->
  wait_for_callback srv timeout started polls = Some (Returned (Some b), srv') ->
  exists p,
    In (Get p) (map snd polls) /\
    path (urlparse p) = "/callback" /\
    first_value (params_of p) "nonce" = Some (expected_nonce srv) /\
    refresh_token b = first_value (params_of p) "refresh_token" /\
    nonblank (refresh_token b) = true.
Proof.
  intros Hnone. unfold Server.wait_for_callback.
  destruct (polling _ polls srv) as [[[|] s1]|] eqn:Hpoll; [done| |done].
  cbn [server_close callback_error callback_result].
  destruct (nonblank (callback_error s1)); [done|].
  intros [= Hres _].
  exact (polling_result _ polls srv false s1 b Hnone Hpoll Hres).
Qed.

(** X13. A reading of the clock past the deadline, met before any callback,
    ends the wait with [TimeoutError]: the server is closed, nothing else
    about it has changed, and neither the request then pending nor any later
    one is handled. A reading equal to the deadline is still in time. *)
Theorem wait_times_out srv timeout started pre now a rest :
  callback_done srv = false ->
  Forall (idle (started + inject_Z timeout)%Q) pre ->
  (started + inject_Z timeout < now)%Q ->
  wait_for_callback srv timeout started (pre ++ (now, a) :: rest)
  = Some (TimeoutError, server_close srv).
Proof.
  intros Hdone Hpre Hlate. unfold Server.wait_for_callback.
  rewrite polling_idle by done. cbn [Server.polling]. rewrite Hdone.
  apply Qltb_lt in Hlate. by rewrite Hlate.
Qed.



End Listener.


Lemma idle_quiet_second :
  Forall (Server.idle Stubs.urlparse (0 + inject_Z 300)%Q) [(10%Q, Nothing)].
Proof.
  constructor; [|constructor]. split; [|exact I].
  vm_compute. discriminate.
Defined.

Lemma wait_times_out_witness :
  Server.wait_for_callback Stubs.urlparse Stubs.parse_qs Stubs.fresh_abc 300 0
    ([(10%Q, Nothing)] ++ (301%Q, Get "/callback?nonce=abc&refresh_token=rt1")
                       :: [])
  = Some (TimeoutError, server_close Stubs.fresh_abc).
Proof.
  apply (wait_times_out Stubs.urlparse Stubs.parse_qs Stubs.fresh_abc 300 0
           [(10%Q, Nothing)] 301
           (Get "/callback?nonce=abc&refresh_token=rt1") []).
  - reflexivity.
  - exact idle_quiet_second.
  - reflexivity.
Defined.



Lemma wait_returns_only_for_nonce_witness :
  exists p,
    In (Get p)
       (map snd [(11%Q, Get "/callback?nonce=abc&refresh_token=rt1")]) /\
    path (Stubs.urlparse p) = "/callback" /\
    first_value (Stubs.parse_qs (query (Stubs.urlparse p))) "nonce"
    = Some (expected_nonce Stubs.fresh_abc) /\
    Some "rt1"
    = first_value (Stubs.parse_qs (query (Stubs.urlparse p))) "refresh_token"
    /\ nonblank (Some "rt1") = true.
Proof.
  apply (wait_returns_only_for_nonce Stubs.urlparse Stubs.parse_qs Stubs.fresh_abc
           300 0 [(11%Q, Get "/callback?nonce=abc&refresh_token=rt1")]
           {| access_token := None; refresh_token := Some "rt1";
              expires_in := None; refresh_token_expires_in := None |}
           (server_close
              (finish Stubs.fresh_abc
                 (Some {| access_token := None; refresh_token := Some "rt1";
                          expires_in := None;
                          refresh_token_expires_in := None |}) None))).
  - reflexivity.
  - vm_compute. reflexivity.
Defined.

End ListenerFacts.

(** * [token_storage.py] *)

Module TokenStorageFacts.
Import TokenStorage.

Section Keychain.

Variable K : Type.
Variable set_password : string -> string -> string -> K -> result unit * K.
Variable get_password : string -> string -> K -> result (option string) * K.
Variable json_dumps : pyval -> result string.
Variable json_loads : string -> result pyval.

Local Abbreviation store_credentials :=
  (TokenStorage.store_credentials K set_password json_dumps).
Local Abbreviation get_credentials :=
  (TokenStorage.get_credentials K get_password json_loads).

Lemma nonblank_some text :
  Server.nonblank (Some text) = true <-> text <> "".
Proof.
  cbn. rewrite negb_true_iff. apply String.eqb_neq.
Qed.

(** X16. [get_credentials] gives a value other than [None] in one case only:
    the keychain hands back a text that is not empty and [json.loads] turns
    it into that value. A raise of the keychain, a missing or empty entry
    and a raise of [json.loads] all come out as [None]. *)
Theorem get_credentials_value k v k' :
  v <> PNone ->
  get_credentials k = (v, k')
  <-> exists text,
        get_password KEYRING_SERVICE KEYRING_ACCOUNT k = (Ok (Some text), k') /\
        text <> "" /\ json_loads text = Ok v.
Proof.
  intros Hv. unfold TokenStorage.get_credentials.
  destruct (get_password KEYRING_SERVICE KEYRING_ACCOUNT k)
    as [[[text|]|e] k1].
  - destruct (Server.nonblank (Some text)) eqn:Hnb.
    + apply nonblank_some in Hnb. cbn [default id].
      destruct (json_loads text) as [v1|e1] eqn:Hl.
      * split.
        -- intros [= <- <-]. by exists text.
        -- intros (t & [= <- <-] & _ & Hl'). congruence.
      * split; [intros [= <- _]; done|].
        intros (t & [= <- <-] & _ & Hl'). congruence.
    + split; [intros [= <- _]; done|].
      intros (t & [= <- <-] & Hne & _).
      apply nonblank_some in Hne. congruence.
  - split; [intros [= <- _]; done | intros (t & [=] & _)].
  - split; [intros [= <- _]; done | intros (t & [=] & _)].
Qed.

(** X17. On a keychain that reads back what was written, for a record that
    [json] takes to a text and back: once [store_credentials] has returned,
    [get_credentials] gives the record. *)
Theorem store_then_get credentials text k k1 :
  (forall service account password k0 k0',
     set_password service account password k0 = (Ok tt, k0') ->
     get_password service account k0' = (Ok (Some password), k0')) ->
  json_dumps credentials = Ok text ->
  text <> "" ->
  json_loads text = Ok credentials ->
  store_credentials credentials k = (Ok tt, k1) ->
  get_credentials k1 = (credentials, k1).
Proof.
  intros Hlaw Hd Hne Hl. unfold TokenStorage.store_credentials.
  rewrite Hd. intros Hset. apply Hlaw in Hset.
  unfold TokenStorage.get_credentials. rewrite Hset.
  apply nonblank_some in Hne. rewrite Hne. cbn [default id]. by rewrite Hl.
Qed.

End Keychain.

Lemma get_credentials_value_witness :
  TokenStorage.get_credentials Stubs.keychain Stubs.get_password
    Stubs.json_loads {[ (KEYRING_SERVICE, KEYRING_ACCOUNT) := "{}" ]}
  = (PDict ∅, {[ (KEYRING_SERVICE, KEYRING_ACCOUNT) := "{}" ]})
  <-> exists text,
        Stubs.get_password KEYRING_SERVICE KEYRING_ACCOUNT
          {[ (KEYRING_SERVICE, KEYRING_ACCOUNT) := "{}" ]}
        = (Ok (Some text), {[ (KEYRING_SERVICE, KEYRING_ACCOUNT) := "{}" ]})
        /\ text <> "" /\ Stubs.json_loads text = Ok (PDict ∅).
Proof.
  apply (get_credentials_value Stubs.keychain Stubs.get_password
           Stubs.json_loads). discriminate.
Defined.

Lemma store_then_get_witness :
  TokenStorage.get_credentials Stubs.keychain Stubs.get_password
    Stubs.json_loads {[ (KEYRING_SERVICE, KEYRING_ACCOUNT) := "{}" ]}
  = (PDict ∅, {[ (KEYRING_SERVICE, KEYRING_ACCOUNT) := "{}" ]}).
Proof.
  apply (store_then_get Stubs.keychain Stubs.set_password Stubs.get_password
           Stubs.json_dumps Stubs.json_loads (PDict ∅) "{}" ∅).
  - intros service account password k0 k0' Hset.
    unfold Stubs.set_password in Hset. injection Hset as <-.
    unfold Stubs.get_password. f_equal. f_equal. apply lookup_insert_eq.
  - reflexivity.
  - discriminate.
  - reflexivity.
  - reflexivity.
Defined.

End TokenStorageFacts.
